(** * Triplet approximator of [moltemplate_helpers.py]

    A shallow embedding of [unique_enum], [cubicity] and [decompose], and the
    properties of the search they implement; then the lines [modify_build]
    makes and puts in the build file, and [clean_up] and [time_to_steps] of
    [other_helpers.py].

    Modelling conventions.
    - Python integers are [Z]; lists of integers are [list Z], read with
      stdpp's lookup and written with stdpp's insert, an out-of-range index
      raising [IndexError] as in Python.
    - Exceptions are values of [exn]; a computation that may raise returns an
      [outcome].  Loops whose termination is the subject of a theorem take a
      [fuel] argument, and running out of it is the separate outcome
      [OutOfFuel], never confused with a result or an exception.
    - A generator is modelled by the list of the values it yields, each one a
      snapshot of the yielded list at the moment of the [yield], followed by
      the way the generator ends.
    - Floats.  [cubicity] is evaluated in IEEE binary64 arithmetic, with
      the Standard Library's [SpecFloat] operations at precision 53: its
      scores are only ever compared with each other, and rounding decides
      such a comparison when two scores are equal as rationals (as for
      [1,0,0] and [3,2,2]).  The other float expressions of [decompose],
      [round(root*0.5)], [round(root*1.7)] and [round(number**(1/3))], are
      evaluated exactly, on rationals [Q] and on integers, because rounding
      cannot change their results: [root*0.5] is exact in binary64,
      [root*1.7] is either a midpoint, which binary64 hits exactly, or a
      tenth away from one, and the cube root of an integer up to [10^7] is
      much further from every midpoint than the error of the power function.
      [round_cbrt_robust] states the accuracy the power needs, and
      [b64_search_bounds_agree] checks the binary64 evaluation of the two
      products against the exact one for every [root] up to 2000.
      For larger numbers the rounded power can differ from the rounded cube
      root, so the theorems about [decompose] are stated for numbers up to
      [10^7].  The conversion of an integer to a float raises
      [OverflowError] from [float_limit] on; [round_cbrt] has that path.
      In [cubicity] the sum and the entries are converted without a range
      check, which is what Python computes as long as they are binary64
      numbers; its theorems are stated for entries up to [2^51] in absolute
      value, or for a sum and entries up to [2^53].
    - The list [unique_enum] yields is one object.  Where that matters, the
      generator is modelled a second time on a heap of list objects, the
      values yielded being references ([unique_enum_ref]). *)

From Stdlib Require Import ZArith QArith Qround Qabs Lia SpecFloat.
From Stdlib Require Import Ascii DecimalString DecimalPos.
From stdpp Require Import base tactics option list list_numbers strings.

Local Open Scope Z_scope.

(** ** Values, exceptions and outcomes *)

(** The Python values that can reach the bounds of [unique_enum]. *)
Inductive value :=
  | VInt (z : Z)
  | VFloat (f : spec_float)
  | VStr (s : string)
  | VNone.

Inductive exn :=
  | Exception (msg : string)
  | TypeError (msg : string)
  | IndexError (msg : string)
  | OverflowError (msg : string)
  | ValueError (msg : string).

Inductive outcome (A : Type) :=
  | Done (a : A)
  | Raise (e : exn)
  | OutOfFuel.
Arguments Done {A} a.
Arguments Raise {A} e.
Arguments OutOfFuel {A}.

#[global] Instance outcome_ret : MRet outcome := fun A a => Done a.
#[global] Instance outcome_bind : MBind outcome := fun A B f m =>
  match m with
  | Done a => f a
  | Raise e => Raise e
  | OutOfFuel => OutOfFuel
  end.

(** [isinstance(v, int)] *)
Definition is_int (v : value) : bool :=
  match v with VInt _ => true | _ => false end.

(** ** Binary64 arithmetic *)

(** An integer as a float, rounded to the nearest one. *)
Definition b64_of_Z (z : Z) : spec_float := binary_normalize 53 1024 z 0 false.

Definition b64_add : spec_float → spec_float → spec_float := SFadd 53 1024.
Definition b64_sub : spec_float → spec_float → spec_float := SFsub 53 1024.
Definition b64_mul : spec_float → spec_float → spec_float := SFmul 53 1024.
Definition b64_div : spec_float → spec_float → spec_float := SFdiv 53 1024.

(** The rational a finite float stands for. *)
Definition b64_to_Q (f : spec_float) : option Q :=
  match f with
  | S754_zero _ => Some 0%Q
  | S754_finite s m e =>
      Some (inject_Z (cond_Zopp s (Z.pos m))
            * (if 0 <=? e then inject_Z (2 ^ e) else / inject_Z (2 ^ (- e))))%Q
  | _ => None
  end.

(** A float against an integer, by value and without rounding the integer,
    as Python compares them; a NaN compares with nothing. *)
Definition float_compare_int (f : spec_float) (z : Z) : option comparison :=
  match f with
  | S754_nan => None
  | S754_infinity s => Some (if s then Lt else Gt)
  | _ => q ← b64_to_Q f; Some (q ?= inject_Z z)%Q
  end.

(** [a > b]: numbers compare by value, strings lexicographically, and any
    other pairing is a [TypeError] of the interpreter. *)
Definition py_gt (a b : value) : outcome bool :=
  match a, b with
  | VInt x, VInt y => Done (y <? x)
  | VInt x, VFloat y => Done (bool_decide (float_compare_int y x = Some Lt))
  | VFloat x, VInt y => Done (bool_decide (float_compare_int x y = Some Gt))
  | VFloat x, VFloat y => Done (SFltb y x)
  | VStr x, VStr y => Done (String.ltb y x)
  | _, _ => Raise (TypeError "'>' not supported between instances")
  end.

(** ** [unique_enum] *)

(** [l[i]] *)
Definition getitem (l : list Z) (i : nat) : outcome Z :=
  match l !! i with
  | Some x => Done x
  | None => Raise (IndexError "list index out of range")
  end.

(** [l[i] = x] *)
Definition setitem (l : list Z) (i : nat) (x : Z) : outcome (list Z) :=
  if decide (i < length l)%nat then Done (<[i := x]> l)
  else Raise (IndexError "list assignment index out of range").

(** [l[i] += 1] *)
Definition incritem (l : list Z) (i : nat) : outcome (list Z) :=
  x ← getitem l i; setitem l i (x + 1).

(** The overflow loop
    [while current_index[i] > upper_bound: i += 1; current_index[i] += 1].
    Each iteration moves [i] one place up, so [length current_index]
    iterations always suffice; [n] counts the iterations still allowed. *)
Fixpoint overflow_loop (n : nat) (upper_bound : Z) (i : nat)
    (current_index : list Z) : outcome (nat * list Z) :=
  x ← getitem current_index i;
  if upper_bound <? x then
    match n with
    | O => OutOfFuel
    | S n' =>
        current_index' ← incritem current_index (S i);
        overflow_loop n' upper_bound (S i) current_index'
    end
  else Done (i, current_index).

(** [for j in range(i): current_index[j] = current_index[i]], the list [js]
    holding the values of [j] still to come. *)
Fixpoint reset_loop (js : list nat) (i : nat) (current_index : list Z)
    : outcome (list Z) :=
  match js with
  | [] => Done current_index
  | j :: js' =>
      x ← getitem current_index i;
      current_index' ← setitem current_index j x;
      reset_loop js' i current_index'
  end.

(** One pass through the body of the outer [while] loop, up to the [yield]. *)
Definition advance (upper_bound : Z) (current_index : list Z)
    : outcome (list Z) :=
  l1 ← incritem current_index 0;
  '(i, l2) ← overflow_loop (length current_index) upper_bound 0 l1;
  reset_loop (seq 0 i) i l2.

(** What a consumer sees of a generator: the values yielded, in order, and
    how the generator ended ([Done tt] is normal exhaustion). *)
Record run := Run { yielded : list (list Z); ending : outcome unit }.

Definition yield (x : list Z) (r : run) : run :=
  Run (x :: yielded r) (ending r).

(** [while current_index != upper_shape: ...; yield current_index] *)
Fixpoint iterate (fuel : nat) (upper_bound : Z)
    (upper_shape current_index : list Z) : run :=
  if decide (current_index = upper_shape) then Run [] (Done tt)
  else
    match fuel with
    | O => Run [] OutOfFuel
    | S fuel' =>
        match advance upper_bound current_index with
        | Done next =>
            yield next (iterate fuel' upper_bound upper_shape next)
        | Raise e => Run [] (Raise e)
        | OutOfFuel => Run [] OutOfFuel
        end
    end.

(** The two checks come first, the comparison before the type test; the
    values of two bounds that pass the type test start the loop. *)
Definition unique_enum (fuel : nat) (lower_bound upper_bound : value)
    (length : nat) : run :=
  match py_gt lower_bound upper_bound with
  | Raise e => Run [] (Raise e)
  | OutOfFuel => Run [] OutOfFuel
  | Done true => Run [] (Raise (Exception "Lower bound exceeds upper bound"))
  | Done false =>
      match lower_bound, upper_bound with
      | VInt lo, VInt hi =>
          let current_index := replicate length lo in
          let upper_shape := replicate length hi in
          yield current_index (iterate fuel hi upper_shape current_index)
      | _, _ =>
          Run [] (Raise (Exception "Lower and upper bound must be integers"))
      end
  end.

(** ** [cubicity] *)

(** [sum(l)] *)
Definition py_sum (l : list Z) : Z := fold_left Z.add l 0.

(** The score of a triplet, in binary64 as Python evaluates it: the true
    division [sum(triplet)/3] is the correctly rounded quotient, each
    [triplet[i]] is converted to a float before the subtraction, and the three
    absolute values are added from left to right.  The sum and the entries
    are converted without a range check: this is Python's result when they
    are binary64 numbers, up to [2^53] in absolute value, as the sides
    [decompose] looks at are; for larger integers Python rounds the exact
    quotient once and raises [OverflowError] when a conversion overflows. *)
Definition cubicity (triplet : list Z) : outcome spec_float :=
  let mean := b64_div (b64_of_Z (py_sum triplet)) (b64_of_Z 3) in
  t0 ← getitem triplet 0;
  t2 ← getitem triplet 2;
  t2' ← getitem triplet 2;
  Done (b64_add
          (b64_add (SFabs (b64_sub mean (b64_of_Z t0)))
                   (SFabs (b64_sub mean (b64_of_Z t2))))
          (SFabs (b64_sub mean (b64_of_Z t2')))).

(** ** [decompose] *)

(** Python's [round] of a float to an integer: to the nearest integer, a tie
    going to the even one ([py_round_nearest] below). *)
Definition py_round (x : Q) : Z :=
  let f := Qfloor x in
  match (x - inject_Z f ?= 1 # 2)%Q with
  | Lt => f
  | Gt => f + 1
  | Eq => if Z.even f then f else f + 1
  end.

(** Integer part of the cube root, one binary digit of the result for each
    three of the argument. *)
Fixpoint icbrt_digits (digits : nat) (n : Z) : Z :=
  match digits with
  | O => 0
  | S digits' =>
      let r := 2 * icbrt_digits digits' (n / 8) in
      if (r + 1) ^ 3 <=? n then r + 1 else r
  end.

Definition icbrt (n : Z) : Z := icbrt_digits (S (Z.to_nat (Z.log2 n))) n.

(** The integers Python converts to a float are those below [float_limit],
    the midpoint between the largest binary64 number and [2^1024]; from there
    on the conversion raises [OverflowError]. *)
Definition float_limit : Z := 2 ^ 1024 - 2 ^ 970.

(** [round(number**(1/3))].  The power converts [number] to a float first,
    which raises [OverflowError] from [float_limit] on.  A negative
    [number] has a complex power, which [round] rejects.  Otherwise the
    result is taken as the rounding of the real cube root: the cube root of
    a non-negative integer is rounded up exactly when it reaches the
    midpoint [f + 1/2], that is when [(2f+1)^3 <= 8*number]; no integer has
    its cube root on a midpoint, so there is no tie to break.  Python rounds
    the binary64 power instead, which is the same integer as long as the
    error of the power is smaller than the distance from the cube root to
    the nearest midpoint ([round_cbrt_robust]); that holds with a wide
    margin up to [10^7], the range the theorems about [decompose] are
    stated for, and fails for some larger numbers. *)
Definition round_cbrt (number : Z) : outcome Z :=
  if float_limit <=? Z.abs number then
    Raise (OverflowError "int too large to convert to float")
  else if number <? 0 then
    Raise (TypeError "type complex doesn't define __round__ method")
  else
    let f := icbrt number in
    Done (if (2 * f + 1) ^ 3 <=? 8 * number then f + 1 else f).

(** The limits for the side lengths, from [root]; the literals [0.5] and
    [1.7] are the rationals 5/10 and 17/10. *)
Definition search_bounds (root : Z) : Z * Z :=
  let lower :=
    if root <=? 5 then 0
    else Z.min (py_round (inject_Z root * (5 # 10))) (root - 5) in
  let upper := Z.max (py_round (inject_Z root * (17 # 10))) (root + 5) in
  (lower, upper).

(** The body of the [for] loop: the best record [(min_factors, min_error)]
    after [factors] has been looked at. *)
Definition consider (number : Z) (best : list Z * Z) (factors : list Z)
    : outcome (list Z * Z) :=
  let '(min_factors, min_error) := best in
  f0 ← getitem factors 0;
  f1 ← getitem factors 1;
  f2 ← getitem factors 2;
  let error := Z.abs (number - f0 * f1 * f2) in
  if min_error <? error then Done best
  else if min_error >? error then Done (factors, error)
  else
    c ← cubicity factors;
    c_min ← cubicity min_factors;
    if SFltb c c_min then Done (factors, min_error) else Done best.

Fixpoint for_each (number : Z) (best : list Z * Z) (ys : list (list Z))
    : outcome (list Z * Z) :=
  match ys with
  | [] => Done best
  | factors :: ys' =>
      best' ← consider number best factors;
      for_each number best' ys'
  end.

Definition decompose (fuel : nat) (number : Z) : outcome (list Z * Z) :=
  root ← round_cbrt number;
  let '(lower, upper) := search_bounds root in
  let min_error := Z.abs (number - lower ^ 3) in
  let min_factors := replicate 3 lower in
  let r := unique_enum fuel (VInt lower) (VInt upper) 3 in
  best ← for_each number (min_factors, min_error) (yielded r);
  _ ← ending r;
  Done best.

(** ** The same bounds in binary64 *)

(** [round(f)] for a float [f]; Python refuses infinities and NaNs. *)
Definition b64_round (f : spec_float) : outcome Z :=
  match f with
  | S754_infinity _ =>
      Raise (OverflowError "cannot convert float infinity to integer")
  | S754_nan => Raise (ValueError "cannot convert float NaN to integer")
  | _ => Done (py_round (default 0%Q (b64_to_Q f)))
  end.

(** The limits for the side lengths with the two products rounded as
    binary64 does, [0.5] and [1.7] being the floats nearest to 5/10 and
    17/10. *)
Definition b64_search_bounds (root : Z) : outcome (Z * Z) :=
  r05 ← b64_round (b64_mul (b64_of_Z root) (b64_div (b64_of_Z 5) (b64_of_Z 10)));
  r17 ← b64_round (b64_mul (b64_of_Z root) (b64_div (b64_of_Z 17) (b64_of_Z 10)));
  Done (if root <=? 5 then 0 else Z.min r05 (root - 5), Z.max r17 (root + 5)).

Definition bounds_agree (root : Z) : bool :=
  match b64_search_bounds root with
  | Done (lower, upper) =>
      (lower =? (search_bounds root).1) && (upper =? (search_bounds root).2)
  | _ => false
  end.

(** ** [unique_enum] on a heap of list objects *)

(** A Python list is an object: a name or a yielded value is a reference to
    it, and [l[i] = x] changes the object every reference leads to.  The heap
    holds the contents of the list objects made so far, a reference being the
    place of an object in it. *)
Abbreviation ref := nat (only parsing).
Abbreviation heap := (list (list Z)) (only parsing).

(** A statement working on the heap gives the heap it leaves, also when it
    raises, and its outcome. *)
Definition cmd (A : Type) : Type := heap → heap * outcome A.

Definition cmd_ret {A} (a : A) : cmd A := λ h, (h, Done a).

Definition cmd_bind {A B} (m : cmd A) (f : A → cmd B) : cmd B := λ h,
  match m h with
  | (h', Done a) => f a h'
  | (h', Raise e) => (h', Raise e)
  | (h', OutOfFuel) => (h', OutOfFuel)
  end.

(** [[x]*n] makes a new list object, at the end of the heap. *)
Definition new_list (l : list Z) (h : heap) : heap * ref :=
  (h ++ [l], length h).

(** The contents a reference leads to. *)
Definition contents (r : ref) (h : heap) : list Z := h !!! r.

(** [r[i]] *)
Definition ref_getitem (r : ref) (i : nat) : cmd Z := λ h,
  (h, getitem (contents r h) i).

(** [r[i] += 1] and [r[i] = x]: the object is changed in place, and left as
    it was when the index is out of range. *)
Definition ref_update (r : ref) (f : list Z → outcome (list Z)) : cmd unit :=
  λ h,
    match f (contents r h) with
    | Done l => (<[r := l]> h, Done tt)
    | Raise e => (h, Raise e)
    | OutOfFuel => (h, OutOfFuel)
    end.

Definition ref_incritem (r : ref) (i : nat) : cmd unit :=
  ref_update r (λ l, incritem l i).

Definition ref_setitem (r : ref) (i : nat) (x : Z) : cmd unit :=
  ref_update r (λ l, setitem l i x).

(** [while current_index[i] > upper_bound: i += 1; current_index[i] += 1] *)
Fixpoint ref_overflow_loop (n : nat) (upper_bound : Z) (i : nat)
    (current_index : ref) : cmd nat :=
  cmd_bind (ref_getitem current_index i) (λ x,
    if upper_bound <? x then
      match n with
      | O => λ h, (h, OutOfFuel)
      | S n' =>
          cmd_bind (ref_incritem current_index (S i)) (λ _,
            ref_overflow_loop n' upper_bound (S i) current_index)
      end
    else cmd_ret i).

(** [for j in range(i): current_index[j] = current_index[i]] *)
Fixpoint ref_reset_loop (js : list nat) (i : nat) (current_index : ref)
    : cmd unit :=
  match js with
  | [] => cmd_ret tt
  | j :: js' =>
      cmd_bind (ref_getitem current_index i) (λ x,
        cmd_bind (ref_setitem current_index j x) (λ _,
          ref_reset_loop js' i current_index))
  end.

(** One pass through the body of the outer [while] loop, up to the [yield]. *)
Definition ref_advance (upper_bound : Z) (current_index : ref) : cmd unit :=
  λ h,
    cmd_bind (ref_incritem current_index 0) (λ _,
      cmd_bind (ref_overflow_loop (length (contents current_index h))
                  upper_bound 0 current_index) (λ i,
        ref_reset_loop (seq 0 i) i current_index)) h.

(** What a consumer sees of the generator: the references yielded, in order,
    how the generator ended, and the heap it leaves. *)
Record ref_run := RefRun {
  yielded_refs : list ref;
  ref_ending : outcome unit;
  heap_after : heap
}.

Definition ref_yield (r : ref) (run : ref_run) : ref_run :=
  RefRun (r :: yielded_refs run) (ref_ending run) (heap_after run).

(** [while current_index != upper_shape: ...; yield current_index]: the
    comparison is of the contents, the value yielded is the reference. *)
Fixpoint ref_iterate (fuel : nat) (upper_bound : Z)
    (upper_shape current_index : ref) (h : heap) : ref_run :=
  if decide (contents current_index h = contents upper_shape h)
  then RefRun [] (Done tt) h
  else
    match fuel with
    | O => RefRun [] OutOfFuel h
    | S fuel' =>
        match ref_advance upper_bound current_index h with
        | (h', Done _) =>
            ref_yield current_index
              (ref_iterate fuel' upper_bound upper_shape current_index h')
        | (h', Raise e) => RefRun [] (Raise e) h'
        | (h', OutOfFuel) => RefRun [] OutOfFuel h'
        end
    end.

Definition unique_enum_ref (fuel : nat) (lower_bound upper_bound : value)
    (length : nat) (h : heap) : ref_run :=
  match py_gt lower_bound upper_bound with
  | Raise e => RefRun [] (Raise e) h
  | OutOfFuel => RefRun [] OutOfFuel h
  | Done true =>
      RefRun [] (Raise (Exception "Lower bound exceeds upper bound")) h
  | Done false =>
      match lower_bound, upper_bound with
      | VInt lo, VInt hi =>
          let '(h1, current_index) := new_list (replicate length lo) h in
          let '(h2, upper_shape) := new_list (replicate length hi) h1 in
          ref_yield current_index
            (ref_iterate fuel hi upper_shape current_index h2)
      | _, _ =>
          RefRun []
            (Raise (Exception "Lower and upper bound must be integers")) h
      end
  end.

(** [list(gen)] keeps the references; what each of them holds is read in the
    heap the generator leaves. *)
Definition listed (run : ref_run) : list (list Z) :=
  (λ r, contents r (heap_after run)) <$> yielded_refs run.


(** ** [modify_build]: rewriting the build file *)

(** [needle in hay], for strings. *)
Fixpoint contains (needle hay : string) : bool :=
  String.prefix needle hay
  || match hay with
     | EmptyString => false
     | String _ hay' => contains needle hay'
     end.

(** [data[i]] and [data[i] = x] on the lines of a file. *)
Definition getline (data : list string) (i : nat) : outcome string :=
  match data !! i with
  | Some x => Done x
  | None => Raise (IndexError "list index out of range")
  end.

Definition setline (data : list string) (i : nat) (x : string)
    : outcome (list string) :=
  if decide (i < length data)%nat then Done (<[i := x]> data)
  else Raise (IndexError "list assignment index out of range").

(** The lines [modify_build] has made from its numbers when it opens the
    build file: three lines for the box, three for each kind of molecule,
    and the two lines that move the ions. *)
Record build_lines := BuildLines {
  grid_lines : list string;
  wat_lines : list string;
  na_lines : list string;
  cl_lines : list string;
  na_move_line : string;
  cl_move_line : string
}.

(** [for j in range(1, 4): data[i+j] = lines[j-1]], the list [js] holding the
    values of [j] still to come. *)
Fixpoint put_lines (js : list nat) (lines : list string) (i : nat)
    (data : list string) : outcome (list string) :=
  match js with
  | [] => Done data
  | j :: js' =>
      x ← getline lines (j - 1);
      data' ← setline data (i + j) x;
      put_lines js' lines i data'
  end.

(** The body of the loop over the lines of the file, at index [i]: the five
    tests are made on the line as it was read, one after the other. *)
Definition rewrite_at (t : build_lines) (i : nat) (data : list string)
    : outcome (list string) :=
  line ← getline data i;
  data ← (if contains "write_once" line
          then put_lines (seq 1 3) (grid_lines t) i data else Done data);
  data ← (if contains "new SPCE" line
          then put_lines (seq 1 3) (wat_lines t) i data else Done data);
  data ← (if contains "new NaIon" line
          then put_lines (seq 1 3) (na_lines t) i data else Done data);
  data ← (if contains "new ClIon" line
          then put_lines (seq 1 3) (cl_lines t) i data else Done data);
  if contains "na[*]" line then
    data ← setline data i (na_move_line t);
    setline data (i + 1) (cl_move_line t)
  else Done data.

Fixpoint rewrite_loop (t : build_lines) (indices : list nat)
    (data : list string) : outcome (list string) :=
  match indices with
  | [] => Done data
  | i :: indices' =>
      data' ← rewrite_at t i data;
      rewrite_loop t indices' data'
  end.

(** From the lines read from the file to the lines written back to it; the
    file is only opened for writing after the loop, so it stays as it was
    when the loop raises. *)
Definition rewrite_build_file (t : build_lines) (data : list string)
    : outcome (list string) :=
  rewrite_loop t (seq 0 (length data)) data.

(** [str(z)] for an integer: its decimal digits, after a minus sign when it
    is negative. *)
Definition py_str_int (z : Z) : string := NilZero.string_of_int (Z.to_int z).

(** The newline that ends each line. *)
Definition nl : string := String (Ascii.ascii_of_nat 10) EmptyString.

(** The three lines of a block of molecules, from the three sides of its
    lattice and the three spacings already formatted as text. *)
Definition move_lines (factors : list Z) (spacing : list string)
    : outcome (list string) :=
  f0 ← getitem factors 0; s0 ← getline spacing 0;
  f1 ← getitem factors 1; s1 ← getline spacing 1;
  f2 ← getitem factors 2; s2 ← getline spacing 2;
  Done ["[" +:+ py_str_int f0 +:+ "].move(0.00, 0.00, " +:+ s0 +:+ ")" +:+ nl;
        "[" +:+ py_str_int f1 +:+ "].move(0.00, " +:+ s1 +:+ ", 0.01)" +:+ nl;
        "[" +:+ py_str_int f2 +:+ "].move(" +:+ s2 +:+ ", 0.01, 0.01)" +:+ nl].

(** The lines [modify_build] makes, the floats [grid], [water_spacing],
    [salt_spacing], [na_move] and [cl_move] being given as the text their
    formatting produces. *)
Definition make_lines (grid : string) (water_factors : list Z)
    (water_spacing : list string) (salt_factors : list Z)
    (salt_spacing : list string) (na_move cl_move : string)
    : outcome build_lines :=
  let grid_lines := ["0 " +:+ grid +:+ " xlo xhi" +:+ nl;
                     "0 " +:+ grid +:+ " ylo yhi" +:+ nl;
                     "0 " +:+ grid +:+ " zlo zhi" +:+ nl] in
  wat_lines ← move_lines water_factors water_spacing;
  na_lines ← move_lines salt_factors salt_spacing;
  cl_lines ← move_lines salt_factors salt_spacing;
  Done (BuildLines grid_lines wat_lines na_lines cl_lines
          ("na[*][*][*].move(" +:+ na_move +:+ "," +:+ na_move +:+ ","
                               +:+ na_move +:+ ")" +:+ nl)
          ("cl[*][*][*].move(" +:+ cl_move +:+ "," +:+ cl_move +:+ ","
                               +:+ cl_move +:+ ")" +:+ nl)).

(** Whether a character occurs in a string, and whether a string is made of
    the characters of an alphabet only. *)
Fixpoint has_char (c : Ascii.ascii) (s : string) : bool :=
  match s with
  | EmptyString => false
  | String a s' => Ascii.eqb a c || has_char c s'
  end.

Fixpoint over (alphabet s : string) : bool :=
  match s with
  | EmptyString => true
  | String a s' => has_char a alphabet && over alphabet s'
  end.

(** The text of a finite number: digits, point, signs and exponent mark. *)
Definition numeric (s : string) : bool := over "0123456789.-+e" s.

(** A line on which none of the five tests succeeds. *)
Definition plain (line : string) : bool :=
  negb (contains "write_once" line || contains "new SPCE" line
        || contains "new NaIon" line || contains "new ClIon" line
        || contains "na[*]" line).

(** The block that ends up below a line, when the line calls for one: the
    tests are made in order and each writes over the one before. *)
Definition block_of (t : build_lines) (line : string) : option (list string) :=
  if contains "new ClIon" line then Some (cl_lines t)
  else if contains "new NaIon" line then Some (na_lines t)
  else if contains "new SPCE" line then Some (wat_lines t)
  else if contains "write_once" line then Some (grid_lines t)
  else None.

(** ** [other_helpers.py]: [clean_up] *)

(** The calls [clean_up] makes on the file system. *)
Inductive fs_call :=
  | ShutilMove (src dst : string)
  | OsRemove (path : string)
  | ShutilCopyfile (src dst : string).

(** The path a call reads, moves or removes. *)
Definition fs_source (c : fs_call) : string :=
  match c with
  | ShutilMove src _ => src
  | OsRemove path => path
  | ShutilCopyfile src _ => src
  end.

(** The body of the loop, for one name of [new]: the calls it makes. *)
Definition clean_up_one (original : list string)
    (identifier storage_path mode filename : string) : list fs_call :=
  if bool_decide (filename ∉ original) then
    if String.eqb mode "move" then
      [ShutilMove ("./" +:+ filename)
         (storage_path +:+ "/" +:+ identifier +:+ filename)]
    else if String.eqb mode "delete" then
      [OsRemove ("./" +:+ filename)]
    else if String.eqb mode "copy" then
      [ShutilCopyfile ("./" +:+ filename)
         (storage_path +:+ "/" +:+ identifier +:+ filename)]
    else []
  else [].

(** The calls of [clean_up] in the order it makes them, as long as none of
    them raises. *)
Definition clean_up (original new : list string)
    (identifier storage_path mode : string) : list fs_call :=
  new ≫= clean_up_one original identifier storage_path mode.

(** ** [other_helpers.py]: [time_to_steps] *)

(** Strings are read byte by byte, which is what Python does on ASCII text;
    the white space and the digits of Unicode beyond ASCII are not modelled,
    nor is the limit Python sets on the number of digits [int] accepts. *)

(** What [time_to_steps] can raise: the exceptions above, and the one of a
    division by zero. *)
Inductive raised :=
  | Exn (e : exn)
  | ZeroDivisionError (msg : string).

(** [c.isspace()] on ASCII: tab to carriage return, the four separators and
    the space. *)
Definition is_space (c : ascii) : bool :=
  let n := nat_of_ascii c in
  ((9 <=? n)%nat && (n <=? 13)%nat) || ((28 <=? n)%nat && (n <=? 32)%nat).

Fixpoint lstrip (s : string) : string :=
  match s with
  | EmptyString => EmptyString
  | String c s' => if is_space c then lstrip s' else s
  end.

Fixpoint rstrip (s : string) : string :=
  match s with
  | EmptyString => EmptyString
  | String c s' =>
      match rstrip s' with
      | EmptyString => if is_space c then EmptyString else String c EmptyString
      | r => String c r
      end
  end.

(** [s.strip()] *)
Definition strip (s : string) : string := rstrip (lstrip s).

(** [s.split(sep)[0]], for a separator that is not empty: the text before
    the first occurrence of [sep], all of [s] when there is none. *)
Fixpoint before (sep s : string) : string :=
  if String.prefix sep s then EmptyString
  else match s with
       | EmptyString => EmptyString
       | String c s' => String c (before sep s')
       end.

(** [s.split()]: the words between runs of white space. *)
Fixpoint py_split (s : string) : list string :=
  match s with
  | EmptyString => []
  | String c s' =>
      if is_space c then py_split s'
      else match s' with
           | EmptyString => [String c EmptyString]
           | String c' _ =>
               if is_space c' then String c EmptyString :: py_split s'
               else match py_split s' with
                    | w :: ws => String c w :: ws
                    | [] => [String c EmptyString]
                    end
           end
  end.

Definition digit_of (c : ascii) : option Z :=
  let n := nat_of_ascii c in
  if ((48 <=? n)%nat && (n <=? 57)%nat) then Some (Z.of_nat n - 48) else None.

(** The digits of a decimal literal, with single underscores between them;
    [after_digit] tells whether the character before was a digit. *)
Fixpoint py_int_digits (acc : Z) (after_digit : bool) (s : string)
    : option Z :=
  match s with
  | EmptyString => if after_digit then Some acc else None
  | String c s' =>
      if Ascii.eqb c "_" then
        if after_digit then py_int_digits acc false s' else None
      else match digit_of c with
           | Some d => py_int_digits (acc * 10 + d) true s'
           | None => None
           end
  end.

(** [int(s)] for a string. *)
Definition py_int (s : string) : raised + Z :=
  let s := strip s in
  let '(negative, body) :=
    match s with
    | String "-" body => (true, body)
    | String "+" body => (false, body)
    | _ => (false, s)
    end in
  match py_int_digits 0 false body with
  | Some z => inr (if negative : bool then - z else z)
  | None => inl (Exn (ValueError "invalid literal for int() with base 10"))
  end.

(** [a / b] for two integers. *)
Definition py_truediv (a b : Z) : raised + spec_float :=
  if b =? 0 then inl (ZeroDivisionError "division by zero")
  else inr (b64_div (b64_of_Z a) (b64_of_Z b)).

(** [int(time.split(unit)[0].split()[0])*factor/step_size] *)
Definition steps_in (unit : string) (factor : Z) (time : string)
    (step_size : Z) : raised + value :=
  match py_split (before unit time) !! 0%nat with
  | None => inl (Exn (IndexError "list index out of range"))
  | Some word =>
      match py_int word with
      | inl e => inl e
      | inr n =>
          match py_truediv (n * factor) step_size with
          | inl e => inl e
          | inr steps => inr (VFloat steps)
          end
      end
  end.

Definition time_to_steps (time : string) (step_size : Z) : raised + value :=
  let time := strip time in
  if contains "ps" time then steps_in "ps" 1000 time step_size
  else if contains "ns" time then steps_in "ns" 1000000 time step_size
  else if String.eqb time "0" then
    match py_int time with
    | inl e => inl e
    | inr n => inr (VInt n)
    end
  else inl (Exn (Exception
    "Incorrect format, specify an integer immediately followed by either 'ps' or 'ns'")).

(** A string of white space only. *)
Fixpoint blank (s : string) : bool :=
  match s with
  | EmptyString => true
  | String c s' => is_space c && blank s'
  end.

(** A string without white space. *)
Fixpoint solid (s : string) : bool :=
  match s with
  | EmptyString => true
  | String c s' => negb (is_space c) && solid s'
  end.

(** The value of a string of digits read after the digits that gave [acc]. *)
Fixpoint decimal_value (acc : Z) (d : Decimal.uint) : Z :=
  match d with
  | Decimal.Nil => acc
  | Decimal.D0 d' => decimal_value (acc * 10) d'
  | Decimal.D1 d' => decimal_value (acc * 10 + 1) d'
  | Decimal.D2 d' => decimal_value (acc * 10 + 2) d'
  | Decimal.D3 d' => decimal_value (acc * 10 + 3) d'
  | Decimal.D4 d' => decimal_value (acc * 10 + 4) d'
  | Decimal.D5 d' => decimal_value (acc * 10 + 5) d'
  | Decimal.D6 d' => decimal_value (acc * 10 + 6) d'
  | Decimal.D7 d' => decimal_value (acc * 10 + 7) d'
  | Decimal.D8 d' => decimal_value (acc * 10 + 8) d'
  | Decimal.D9 d' => decimal_value (acc * 10 + 9) d'
  end.

(** ** Reference descriptions used by the proofs *)

(** The effect of the overflow loop and of the reset loop together, on the
    list [x :: post] whose head [x] has just been incremented: the first
    place that does not overflow keeps its incremented value and every place
    before it takes that value; [None] when every place overflows. *)
Fixpoint carry (ub : Z) (x : Z) (post : list Z) : option (list Z) :=
  if ub <? x then
    match post with
    | [] => None
    | y :: post' =>
        match carry ub (y + 1) post' with
        | Some (v :: r) => Some (v :: v :: r)
        | _ => None
        end
    end
  else Some (x :: post).

Definition successor (ub : Z) (l : list Z) : option (list Z) :=
  match l with
  | [] => None
  | a :: l' => carry ub (a + 1) l'
  end.

(** State of the overflow loop: the places [pre] already passed, the current
    place [x], the places [post] still ahead. *)
Fixpoint settle (ub : Z) (pre : list Z) (x : Z) (post : list Z)
    : option (list Z * Z * list Z) :=
  if ub <? x then
    match post with
    | [] => None
    | y :: post' => settle ub (pre ++ [x]) (y + 1) post'
    end
  else Some (pre, x, post).

Definition index_error {A} : outcome A :=
  Raise (IndexError "list index out of range").

Definition of_option {A} (o : option A) : outcome A :=
  match o with Some a => Done a | None => index_error end.

(** The sequences of [k] values between [hi - d] and [hi] in which no value
    is larger than the one before it, ordered by their last value first: those
    ending in [hi - d], then those over the narrower range. *)
Fixpoint combos (hi : Z) (k : nat) : nat → list (list Z) :=
  match k with
  | O => fun _ => [[]]
  | S k' =>
      fix block (d : nat) : list (list Z) :=
        ((fun p => p ++ [hi - Z.of_nat d]) <$> combos hi k' d) ++
        match d with
        | O => []
        | S d' => block d'
        end
  end.

(** Binomial coefficient, by Pascal's rule. *)
Fixpoint binom (n k : nat) : nat :=
  match n, k with
  | _, O => 1
  | O, S _ => 0
  | S n', S k' => binom n' k' + binom n' k
  end.

(** Every element is at most the next one. *)
Fixpoint non_decreasing (l : list Z) : bool :=
  match l with
  | x :: (y :: _) as l' => (x <=? y) && non_decreasing l'
  | _ => true
  end.

(** Every element is at least the next one. *)
Fixpoint non_increasing (l : list Z) : bool :=
  match l with
  | x :: (y :: _) as l' => (y <=? x) && non_increasing l'
  | _ => true
  end.

(** [link ub top x y]: the loop of [unique_enum], in state [x], goes round
    once more and yields [y]. *)
Definition link (ub : Z) (top x y : list Z) : Prop :=
  x ≠ top ∧ advance ub x = Done y.

(** Consecutive elements of [x :: xs] are related by [R]. *)
Fixpoint chain {A} (R : A → A → Prop) (x : A) (xs : list A) : Prop :=
  match xs with
  | [] => True
  | y :: ys => R x y ∧ chain R y ys
  end.

(** A best record the search of [decompose] can hold: a triplet within the
    bounds, kept with its own error, which is at most [e0]. *)
Definition best_ok (number lower upper e0 : Z) (best : list Z * Z) : Prop :=
  ∃ a b c, best.1 = [a; b; c]
           ∧ (lower ≤ a ≤ upper ∧ lower ≤ b ≤ upper ∧ lower ≤ c ≤ upper)
           ∧ best.2 = Z.abs (number - a * b * c)
           ∧ best.2 ≤ e0.

(** The number of candidates [decompose number] looks at, which is the fuel
    its search needs. *)
Definition search_size (number : Z) : nat :=
  match round_cbrt number with
  | Done root =>
      let '(lower, upper) := search_bounds root in
      binom (Z.to_nat (upper - lower) + 3) 3
  | _ => 0
  end.

(** A float that is not below zero (a NaN passes: it is below nothing). *)
Definition not_negative (f : spec_float) : Prop :=
  match f with
  | S754_finite true _ _ | S754_infinity true => False
  | _ => True
  end.

(** Whether the largest side of the triplet [decompose] returns is at most
    [k] times the smallest. *)
Definition sides_within (k number : Z) : bool :=
  match decompose (search_size number) number with
  | Done ([a; b; c], _) => a <=? k * c
  | _ => false
  end.

(** * Proofs *)

Section Outcome.
Context {A B : Type}.

Lemma bind_Done (a : A) (f : A → outcome B) : (Done a ≫= f) = f a.
Proof. reflexivity. Qed.

Lemma bind_inv_Done (m : outcome A) (f : A → outcome B) (b : B) :
  (m ≫= f) = Done b → ∃ a, m = Done a ∧ f a = Done b.
Proof. destruct m; simpl; intros; [eauto | done | done]. Qed.

End Outcome.

(** ** The loop body of [unique_enum] computes [successor] *)

Lemma getitem_middle (pre post : list Z) (x : Z) :
  getitem (pre ++ x :: post) (length pre) = Done x.
Proof. unfold getitem. by rewrite list_lookup_middle. Qed.

Lemma setitem_middle (pre post : list Z) (x y : Z) :
  setitem (pre ++ x :: post) (length pre) y = Done (pre ++ y :: post).
Proof.
  unfold setitem. rewrite decide_True.
  - f_equal. rewrite insert_app_r_alt, Nat.sub_diag by lia. done.
  - rewrite length_app. simpl. lia.
Qed.

Lemma incritem_middle (pre post : list Z) (x : Z) :
  incritem (pre ++ x :: post) (length pre) = Done (pre ++ (x + 1) :: post).
Proof.
  unfold incritem. rewrite getitem_middle. simpl. apply setitem_middle.
Qed.

Lemma incritem_end (l : list Z) : incritem l (length l) = index_error.
Proof.
  unfold incritem, getitem. by rewrite lookup_ge_None_2 by lia.
Qed.

Lemma overflow_loop_settle (ub : Z) (post pre : list Z) (x : Z) (n : nat) :
  (length post < n)%nat →
  overflow_loop n ub (length pre) (pre ++ x :: post) =
  '(pre', x', post') ← of_option (settle ub pre x post);
  Done (length pre', pre' ++ x' :: post').
Proof.
  revert pre x n. induction post as [|y post IH]; intros pre x n Hn;
    (destruct n as [|n]; [simpl in Hn; lia|]);
    simpl; rewrite getitem_middle; simpl; (destruct (ub <? x); [|done]);
    replace (S (length pre)) with (length (pre ++ [x]))
      by (rewrite length_app; simpl; lia).
  - by rewrite incritem_end.
  - replace (pre ++ x :: y :: post) with ((pre ++ [x]) ++ y :: post)
      by (by rewrite <- app_assoc).
    rewrite incritem_middle. simpl. apply IH. simpl in Hn. lia.
Qed.

Lemma reset_loop_replicate (b a post : list Z) (x : Z) :
  reset_loop (seq (length a) (length b)) (length a + length b)
    (a ++ b ++ x :: post) =
  Done (a ++ replicate (length b) x ++ x :: post).
Proof.
  revert a. induction b as [|y b IH]; intros a; [done|].
  simpl.
  replace (a ++ y :: b ++ x :: post) with ((a ++ y :: b) ++ x :: post)
    by (by rewrite <- app_assoc).
  replace (length a + S (length b))%nat with (length (a ++ y :: b))
    by (rewrite length_app; simpl; lia).
  rewrite getitem_middle. simpl.
  rewrite <- app_assoc. simpl. rewrite setitem_middle. simpl.
  specialize (IH (a ++ [x])).
  rewrite length_app in IH. simpl in IH.
  rewrite <- !app_assoc in IH. simpl in IH.
  rewrite length_app. simpl.
  replace (S (length a)) with (length a + 1)%nat by lia.
  replace (length a + S (length b))%nat
    with (length a + 1 + length b)%nat by lia.
  rewrite IH. f_equal.
Qed.

Lemma settle_carry (ub : Z) (post pre : list Z) (x : Z) :
  match settle ub pre x post with
  | Some (pre', x', post') => Some (replicate (length pre') x' ++ x' :: post')
  | None => None
  end =
  match carry ub x post with
  | Some (v :: r) => Some (replicate (length pre) v ++ v :: r)
  | _ => None
  end.
Proof.
  revert pre x. induction post as [|y post IH]; intros pre x; simpl;
    (destruct (ub <? x); [|done]); [done|].
  rewrite IH. destruct (carry ub (y + 1) post) as [[|v r]|]; try done.
  rewrite length_app. simpl. f_equal.
  replace (length pre + 1)%nat with (S (length pre)) by lia.
  rewrite replicate_S_end, <- app_assoc. done.
Qed.

Lemma carry_nonempty (ub x : Z) (post l : list Z) :
  carry ub x post = Some l → l ≠ [].
Proof.
  destruct post as [|y post]; simpl; destruct (ub <? x); try congruence.
  destruct (carry ub (y + 1) post) as [[|v r]|]; congruence.
Qed.

Lemma advance_successor (ub : Z) (l : list Z) :
  advance ub l = of_option (successor ub l).
Proof.
  destruct l as [|a l]; [done|].
  unfold advance.
  rewrite (incritem_middle [] l a : incritem (a :: l) 0 = _), bind_Done.
  rewrite (overflow_loop_settle ub l [] (a + 1) (length (a :: l))
             ltac:(simpl; lia) : overflow_loop _ ub 0 ([] ++ _) = _).
  pose proof (settle_carry ub l [] (a + 1)) as H.
  unfold successor.
  destruct (settle ub [] (a + 1) l) as [[[pre' x'] post']|]; simpl.
  - rewrite (reset_loop_replicate pre' [] post' x'
               : reset_loop (seq 0 _) (length pre') (pre' ++ _) = _).
    destruct (carry ub (a + 1) l) as [[|v r]|]; simplify_eq/=.
    by rewrite H.
  - destruct (carry ub (a + 1) l) as [[|v r]|] eqn:E; simplify_eq/=.
    + by apply carry_nonempty in E.
    + done.
Qed.

(** A step that stays inside a prefix does not look at what follows it. *)
Lemma carry_app (ub : Z) (p r q : list Z) (x : Z) :
  carry ub x p = Some q → carry ub x (p ++ r) = Some (q ++ r).
Proof.
  revert x q. induction p as [|y p IH]; intros x q; simpl;
    destruct (ub <? x) eqn:Hx; try congruence.
  - intros [= <-]. destruct r; simpl; by rewrite Hx.
  - destruct (carry ub (y + 1) p) as [[|v r']|] eqn:E; try congruence.
    intros [= <-]. rewrite (IH _ _ E). done.
  - intros [= <-]. done.
Qed.

Lemma successor_app (ub : Z) (p r q : list Z) :
  successor ub p = Some q → successor ub (p ++ r) = Some (q ++ r).
Proof. destruct p as [|a p]; [done|]. apply carry_app. Qed.

(** Carrying through [k] places that are full. *)
Lemma carry_full (ub : Z) (k : nat) (x c : Z) (r : list Z) :
  ub < x → c < ub →
  carry ub x (replicate k ub ++ c :: r) =
  Some (replicate (S (S k)) (c + 1) ++ r).
Proof.
  intros Hx Hc. revert x Hx. induction k as [|k IH]; intros x Hx; simpl.
  - destruct (Z.ltb_spec ub x); [|lia].
    destruct r; simpl; destruct (Z.ltb_spec ub (c + 1)); done || lia.
  - destruct (Z.ltb_spec ub x); [|lia].
    rewrite IH by lia. done.
Qed.

Lemma successor_full (ub : Z) (k : nat) (c : Z) (r : list Z) :
  c < ub →
  successor ub (replicate k ub ++ c :: r) = Some (replicate (S k) (c + 1) ++ r).
Proof.
  intros Hc. destruct k as [|k]; simpl.
  - destruct r; simpl; destruct (Z.ltb_spec ub (c + 1)); done || lia.
  - apply carry_full; lia.
Qed.

(** ** The reference enumeration [combos] *)

Lemma combos_S_O (hi : Z) (k : nat) :
  combos hi (S k) 0 = (λ p, p ++ [hi]) <$> combos hi k 0.
Proof. simpl. rewrite app_nil_r, Z.sub_0_r. done. Qed.

Lemma combos_S_S (hi : Z) (k d : nat) :
  combos hi (S k) (S d) =
  ((λ p, p ++ [hi - Z.of_nat (S d)]) <$> combos hi k (S d))
  ++ combos hi (S k) d.
Proof. reflexivity. Qed.

Lemma binom_lt (n k : nat) : (n < k)%nat → binom n k = 0%nat.
Proof.
  revert k. induction n as [|n IH]; intros [|k] H; simpl; try lia.
  rewrite !IH by lia. done.
Qed.

Lemma binom_diag (n : nat) : binom n n = 1%nat.
Proof.
  induction n as [|n IH]; [done|]. simpl. rewrite IH, binom_lt by lia. done.
Qed.

(** Pascal's definition is the usual quotient of factorials. *)
Lemma binom_fact (n k : nat) :
  (binom (n + k) k * (fact n * fact k) = fact (n + k))%nat.
Proof.
  revert k. induction n as [|n IHn]; intros k.
  - simpl. rewrite binom_diag. lia.
  - induction k as [|k IHk].
    + rewrite Nat.add_0_r. simpl binom. simpl (fact 0). lia.
    + specialize (IHn (S k)).
      replace (S n + S k)%nat with (S (n + S k)) by lia.
      replace (S n + k)%nat with (n + S k)%nat in IHk by lia.
      cbn [binom].
      change (fact (S (n + S k))) with (S (n + S k) * fact (n + S k))%nat.
      change (fact (S n)) with (S n * fact n)%nat in *.
      change (fact (S k)) with (S k * fact k)%nat in *.
      set (a := binom (n + S k) k) in *.
      set (b := binom (n + S k) (S k)) in *.
      set (m := fact (n + S k)) in *.
      set (fn := fact n) in *. set (fk := fact k) in *.
      replace ((a + b) * (S n * fn * (S k * fk)))%nat
        with (S k * (a * (S n * fn * fk)) + S n * (b * (fn * (S k * fk))))%nat
        by lia.
      rewrite IHk, IHn. lia.
Qed.

Lemma length_combos (hi : Z) (k d : nat) :
  length (combos hi k d) = binom (d + k) k.
Proof.
  revert d. induction k as [|k IHk]; intros d.
  - simpl. by destruct (d + 0)%nat.
  - induction d as [|d IHd].
    + rewrite combos_S_O, length_fmap, IHk. simpl.
      rewrite binom_diag, binom_lt by lia. done.
    + rewrite combos_S_S, length_app, length_fmap, IHk, IHd.
      replace (S d + S k)%nat with (S (d + S k)) by lia.
      cbn [binom]. replace (S d + k)%nat with (d + S k)%nat by lia. done.
Qed.

Lemma non_increasing_snoc (p : list Z) (c : Z) :
  non_increasing p = true → Forall (λ x, c ≤ x) p →
  non_increasing (p ++ [c]) = true.
Proof.
  induction p as [|x [|y p] IH]; intros Hp Hc; [done| |].
  - simpl. apply Forall_cons in Hc as [Hx _].
    rewrite andb_true_r. by apply Z.leb_le.
  - simpl in Hp. apply andb_true_iff in Hp as [Hxy Hp].
    apply Forall_cons in Hc as [_ Hc].
    change (non_increasing ((x :: y :: p) ++ [c]))
      with ((y <=? x) && non_increasing ((y :: p) ++ [c])).
    rewrite Hxy, IH; done.
Qed.

(** What [combos] lists: sequences of the right length, within the range,
    and never increasing. *)
Lemma combos_valid (hi : Z) (k d : nat) (s : list Z) :
  s ∈ combos hi k d →
  length s = k ∧ Forall (λ x, hi - Z.of_nat d ≤ x ≤ hi) s
  ∧ non_increasing s = true.
Proof.
  revert d s. induction k as [|k IHk]; intros d s.
  - simpl. intros ->%list_elem_of_singleton. done.
  - induction d as [|d IHd].
    + rewrite combos_S_O. intros (p & -> & Hp)%list_elem_of_fmap.
      destruct (IHk _ _ Hp) as (Hl & Hr & Hm).
      rewrite length_app, Hl. simpl. split; [lia|]. split.
      * apply Forall_app. split; [done|]. apply Forall_singleton. lia.
      * apply non_increasing_snoc; [done|].
        eapply Forall_impl; [exact Hr|]. simpl. lia.
    + rewrite combos_S_S. intros [(p & -> & Hp)%list_elem_of_fmap|Hs]%elem_of_app.
      * destruct (IHk _ _ Hp) as (Hl & Hr & Hm).
        rewrite length_app, Hl. simpl. split; [lia|]. split.
        -- apply Forall_app. split; [done|]. apply Forall_singleton. lia.
        -- apply non_increasing_snoc; [done|].
           eapply Forall_impl; [exact Hr|]. simpl. lia.
      * destruct (IHd Hs) as (Hl & Hr & Hm). split; [done|]. split; [|done].
        eapply Forall_impl; [exact Hr|]. simpl. lia.
Qed.

Lemma combos_NoDup (hi : Z) (k d : nat) : NoDup (combos hi k d).
Proof.
  revert d. induction k as [|k IHk]; intros d.
  - simpl. apply NoDup_singleton.
  - assert (Inj eq eq (λ p : list Z, p ++ [hi - Z.of_nat d])) as Hinj
      by (intros p q H; by apply app_inj_tail in H as [? _]).
    induction d as [|d IHd].
    + rewrite combos_S_O. apply NoDup_fmap_2; [|done].
      intros p q H. by apply app_inj_tail in H as [? _].
    + rewrite combos_S_S. apply NoDup_app. split; [|split].
      * apply NoDup_fmap_2; [done|]. apply IHk.
      * intros s (p & -> & Hp)%list_elem_of_fmap Hs.
        apply combos_valid in Hs as (_ & Hr & _).
        apply Forall_app in Hr as [_ Hr].
        apply Forall_inv in Hr. simpl in Hr. lia.
      * apply IHd. intros p q H. by apply app_inj_tail in H as [? _].
Qed.

(** ** [combos] is the trace of the loop *)

Lemma chain_app {A} (R : A → A → Prop) (x : A) (xs : list A) (y z : A)
    (ys : list A) :
  chain R x xs → last (x :: xs) = Some z → R z y → chain R y ys →
  chain R x (xs ++ y :: ys).
Proof.
  revert x. induction xs as [|x' xs IH]; intros x Hc Hl Hzy Hys; simpl.
  - simplify_eq/=. done.
  - destruct Hc as [Hx Hc]. split; [done|]. apply IH; try done.
Qed.

Lemma chain_fmap {A B} (R : A → A → Prop) (R' : B → B → Prop) (f : A → B)
    (x : A) (xs : list A) :
  (∀ a b, R a b → R' (f a) (f b)) → chain R x xs → chain R' (f x) (f <$> xs).
Proof.
  intros HR. revert x. induction xs as [|y xs IH]; intros x; [done|].
  simpl. intros [Hxy Hc]. split; [by apply HR | by apply IH].
Qed.

Lemma of_option_Done {A} (o : option A) (a : A) :
  of_option o = Done a ↔ o = Some a.
Proof. destruct o; simpl; split; intros; by simplify_eq. Qed.

Lemma link_snoc (hi c : Z) (k : nat) (x y : list Z) :
  link hi (replicate k hi) x y →
  link hi (replicate (S k) hi) (x ++ [c]) (y ++ [c]).
Proof.
  intros [Hne Hadv]. split.
  - rewrite replicate_S_end. intros [? _]%app_inj_tail. done.
  - rewrite advance_successor in *. apply of_option_Done.
    apply successor_app. by apply of_option_Done.
Qed.

Lemma link_full (hi c : Z) (k : nat) :
  c < hi →
  link hi (replicate (S k) hi) (replicate k hi ++ [c]) (replicate (S k) (c + 1)).
Proof.
  intros Hc. split.
  - rewrite replicate_S_end. intros [_ ?]%app_inj_tail. lia.
  - rewrite advance_successor, successor_full, app_nil_r by done. done.
Qed.

Lemma combos_chain (hi : Z) (k d : nat) :
  ∃ xs, combos hi k d = replicate k (hi - Z.of_nat d) :: xs
        ∧ chain (link hi (replicate k hi)) (replicate k (hi - Z.of_nat d)) xs
        ∧ last (combos hi k d) = Some (replicate k hi).
Proof.
  revert d. induction k as [|k IHk]; intros d.
  - exists []. done.
  - induction d as [|d IHd].
    + destruct (IHk 0%nat) as (xs & E & _ & _).
      pose proof (length_combos hi k 0) as Hlen.
      rewrite E, Nat.add_0_l, binom_diag in Hlen.
      destruct xs; [|done]. rewrite combos_S_O, E.
      exists []. change (Z.of_nat 0) with 0. rewrite Z.sub_0_r.
      rewrite replicate_S_end. done.
    + destruct (IHk (S d)) as (xs & E & Hc & Hl).
      destruct IHd as (ys & E' & Hc' & Hl').
      rewrite combos_S_S, E, E'.
      exists (((λ p, p ++ [hi - Z.of_nat (S d)]) <$> xs)
              ++ replicate (S k) (hi - Z.of_nat d) :: ys).
      split; [|split].
      * rewrite (replicate_S_end k (hi - Z.of_nat (S d))). done.
      * rewrite (replicate_S_end k (hi - Z.of_nat (S d))).
        apply (chain_app _ _ _ _ (replicate k hi ++ [hi - Z.of_nat (S d)])).
        -- apply (chain_fmap (link hi (replicate k hi)) _
                    (λ p, p ++ [hi - Z.of_nat (S d)])); [|exact Hc].
           intros a b. apply link_snoc.
        -- pose proof (fmap_last (λ p, p ++ [hi - Z.of_nat (S d)])
                         (combos hi k (S d))) as HL.
           rewrite Hl, E in HL. exact HL.
        -- replace (hi - Z.of_nat d) with (hi - Z.of_nat (S d) + 1) by lia.
           apply link_full. lia.
        -- done.
      * rewrite last_app, <- E', Hl'. done.
Qed.

Lemma iterate_chain (ub : Z) (top : list Z) (xs : list (list Z)) (x : list Z)
    (fuel : nat) :
  chain (link ub top) x xs → last (x :: xs) = Some top →
  (length xs ≤ fuel)%nat →
  iterate fuel ub top x = Run xs (Done tt).
Proof.
  revert x fuel. induction xs as [|y ys IH]; intros x fuel Hc Hl Hf.
  - simplify_eq/=. destruct fuel; simpl; by rewrite decide_True.
  - destruct Hc as [[Hne Hadv] Hc].
    destruct fuel as [|fuel]; [simpl in Hf; lia|].
    simpl. rewrite decide_False, Hadv by done.
    rewrite IH; [done|done|done|]. simpl in Hf. lia.
Qed.

(** With integer bounds in order, [unique_enum] yields [combos] and stops. *)
Lemma unique_enum_combos (fuel : nat) (lo hi : Z) (len : nat) :
  lo ≤ hi →
  (binom (Z.to_nat (hi - lo) + len) len ≤ fuel)%nat →
  unique_enum fuel (VInt lo) (VInt hi) len =
  Run (combos hi len (Z.to_nat (hi - lo))) (Done tt).
Proof.
  intros Hle Hf. unfold unique_enum, py_gt.
  destruct (Z.ltb_spec hi lo); [lia|].
  destruct (combos_chain hi len (Z.to_nat (hi - lo))) as (xs & E & Hc & Hl).
  pose proof (length_combos hi len (Z.to_nat (hi - lo))) as Hlen.
  replace (hi - Z.of_nat (Z.to_nat (hi - lo))) with lo in * by lia.
  rewrite E in *. simpl in Hlen.
  rewrite (iterate_chain hi _ xs); [done|done|done|lia].
Qed.

(** Every never-increasing sequence over the range is listed. *)
Lemma non_increasing_snoc_inv (p : list Z) (c : Z) :
  non_increasing (p ++ [c]) = true →
  non_increasing p = true ∧ Forall (λ x, c ≤ x) p.
Proof.
  induction p as [|x [|y p] IH]; intros H; [done| |].
  - simpl in H. rewrite andb_true_r in H. apply Z.leb_le in H.
    split; [done|]. by apply Forall_singleton.
  - change (non_increasing ((x :: y :: p) ++ [c]))
      with ((y <=? x) && non_increasing ((y :: p) ++ [c])) in H.
    apply andb_true_iff in H as [Hxy H]. destruct (IH H) as [Hp Hc].
    split.
    + simpl. simpl in Hp. by rewrite Hxy, Hp.
    + apply Forall_cons. split; [|done].
      apply Forall_cons in Hc as [Hy _]. apply Z.leb_le in Hxy. lia.
Qed.

Lemma combos_widen (hi : Z) (k d d' : nat) (s : list Z) :
  (d ≤ d')%nat → s ∈ combos hi (S k) d → s ∈ combos hi (S k) d'.
Proof.
  intros Hd Hs. induction Hd as [|d' Hd IH]; [done|].
  rewrite combos_S_S. apply elem_of_app. by right.
Qed.

Lemma combos_complete (hi : Z) (k d : nat) (s : list Z) :
  length s = k → Forall (λ x, hi - Z.of_nat d ≤ x ≤ hi) s →
  non_increasing s = true → s ∈ combos hi k d.
Proof.
  revert d s. induction k as [|k IHk]; intros d s Hl Hr Hm.
  - apply nil_length_inv in Hl as ->. simpl. by apply list_elem_of_singleton.
  - destruct s as [|c p _] using rev_ind; [done|].
    rewrite length_app in Hl. simpl in Hl.
    apply Forall_app in Hr as [Hp Hc]. apply Forall_inv in Hc. simpl in Hc.
    apply non_increasing_snoc_inv in Hm as [Hm Hge].
    apply (combos_widen hi k (Z.to_nat (hi - c))); [lia|].
    assert (p ++ [c] ∈ (λ p, p ++ [hi - Z.of_nat (Z.to_nat (hi - c))])
                       <$> combos hi k (Z.to_nat (hi - c))) as Hin.
    { replace (hi - Z.of_nat (Z.to_nat (hi - c))) with c by lia.
      apply list_elem_of_fmap. exists p. split; [done|].
      apply IHk; [lia| |done].
      replace (hi - Z.of_nat (Z.to_nat (hi - c))) with c by lia.
      apply Forall_forall. intros x Hx.
      rewrite Forall_forall in Hp, Hge.
      specialize (Hp x Hx). specialize (Hge x Hx). simpl in *. lia. }
    destruct (Z.to_nat (hi - c)) as [|d0].
    + rewrite combos_S_O. change (Z.of_nat 0) with 0 in Hin.
      by rewrite Z.sub_0_r in Hin.
    + rewrite combos_S_S. apply elem_of_app. by left.
Qed.

(** Whatever the fuel, the values yielded are the first ones of the trace. *)
Lemma iterate_chain_take (ub : Z) (top : list Z) (xs : list (list Z))
    (x : list Z) (fuel : nat) :
  chain (link ub top) x xs → last (x :: xs) = Some top →
  yielded (iterate fuel ub top x) = take fuel xs.
Proof.
  revert x fuel. induction xs as [|y ys IH]; intros x fuel Hc Hl.
  - simplify_eq/=. destruct fuel; simpl; by rewrite decide_True.
  - destruct Hc as [[Hne Hadv] Hc].
    destruct fuel as [|fuel]; simpl; rewrite decide_False by done; [done|].
    rewrite Hadv. simpl. f_equal. by apply IH.
Qed.



Lemma unique_enum_yielded_combos (fuel : nat) (lo hi : Z) (len : nat)
    (s : list Z) :
  lo ≤ hi → s ∈ yielded (unique_enum fuel (VInt lo) (VInt hi) len) →
  s ∈ combos hi len (Z.to_nat (hi - lo)).
Proof.
  intros Hle. unfold unique_enum, py_gt.
  destruct (Z.ltb_spec hi lo); [lia|].
  destruct (combos_chain hi len (Z.to_nat (hi - lo))) as (xs & E & Hc & Hl).
  replace (hi - Z.of_nat (Z.to_nat (hi - lo))) with lo in * by lia.
  rewrite E in *. simpl.
  rewrite (iterate_chain_take hi _ xs) by done.
  intros [->|Hs%subseteq_take]%elem_of_cons.
  - apply elem_of_cons. by left.
  - apply elem_of_cons. by right.
Qed.

(** ** Rounding and the cube root *)

Lemma py_round_floor (x : Q) : Qfloor x ≤ py_round x ≤ Qfloor x + 1.
Proof.
  unfold py_round. destruct (_ ?= _)%Q; [destruct (Z.even _)| |]; lia.
Qed.

Lemma py_round_nonneg (x : Q) : (0 <= x)%Q → 0 ≤ py_round x.
Proof.
  intros Hx. pose proof (py_round_floor x). pose proof (Qfloor_resp_le _ _ Hx).
  change (Qfloor 0) with 0 in *. lia.
Qed.

(** [py_round x] is an integer nearest to [x], the even one of the two when
    [x] lies halfway. *)
Lemma py_round_nearest (x : Q) :
  (Qabs (x - inject_Z (py_round x)) <= 1 # 2)%Q
  ∧ ((Qabs (x - inject_Z (py_round x)) == 1 # 2)%Q →
     Z.even (py_round x) = true).
Proof.
  pose proof (Qfloor_le x) as Hlo. pose proof (Qlt_floor x) as Hhi.
  unfold py_round. set (f := Qfloor x) in *.
  rewrite inject_Z_plus in Hhi.
  destruct (x - inject_Z f ?= 1 # 2)%Q eqn:E.
  - apply Qeq_alt in E. destruct (Z.even f) eqn:Ev.
    + split; [|done]. rewrite E. done.
    + rewrite inject_Z_plus.
      assert (x - (inject_Z f + inject_Z 1) == - (1 # 2))%Q as ->.
      { change (inject_Z 1) with 1%Q.
        assert (x - (inject_Z f + 1) == x - inject_Z f - 1)%Q as -> by ring.
        by rewrite E. }
      split; [done|]. intros _.
      rewrite Z.even_add, Ev. done.
  - apply Qlt_alt in E. split.
    + apply Qabs_Qle_condition. split; [|by apply Qlt_le_weak].
      apply (Qle_trans _ 0); [done|]. by apply (Qle_minus_iff (inject_Z f) x).
    + intros H. rewrite Qabs_pos in H.
      * rewrite H in E. by apply Qlt_irrefl in E.
      * by apply (Qle_minus_iff (inject_Z f) x).
  - apply Qgt_alt in E. rewrite inject_Z_plus.
    assert (x - (inject_Z f + inject_Z 1) <= 0)%Q as Hneg.
    { apply Qlt_le_weak in Hhi. apply Qle_minus_iff in Hhi.
      apply Qle_minus_iff.
      assert (0 + - (x - (inject_Z f + inject_Z 1))
              == inject_Z f + inject_Z 1 + - x)%Q as -> by ring. done. }
    assert (- (1 # 2) < x - (inject_Z f + inject_Z 1))%Q as Hgt.
    { apply Qlt_minus_iff. apply Qlt_minus_iff in E.
      assert (x - (inject_Z f + inject_Z 1) + - - (1 # 2)
              == x - inject_Z f + - (1 # 2))%Q as ->
        by (change (inject_Z 1) with 1%Q; ring). done. }
    split.
    + apply Qabs_Qle_condition. split; [by apply Qlt_le_weak|].
      by apply (Qle_trans _ 0).
    + intros H. rewrite Qabs_neg in H by done.
      assert (x - (inject_Z f + inject_Z 1) == - (1 # 2))%Q as H'
        by (rewrite <- H; ring).
      rewrite H' in Hgt. by apply Qlt_irrefl in Hgt.
Qed.

Lemma icbrt_digits_spec (digits : nat) (n : Z) :
  0 ≤ n < 2 ^ (3 * Z.of_nat digits) →
  let r := icbrt_digits digits n in 0 ≤ r ∧ r ^ 3 ≤ n < (r + 1) ^ 3.
Proof.
  revert n. induction digits as [|digits IH]; intros n Hn.
  - simpl in *. lia.
  - replace (3 * Z.of_nat (S digits)) with (3 + 3 * Z.of_nat digits) in Hn
      by lia.
    rewrite Z.pow_add_r in Hn by lia. change (2 ^ 3) with 8 in Hn.
    assert (0 ≤ n / 8 < 2 ^ (3 * Z.of_nat digits)) as Hq.
    { split; [apply Z.div_pos; lia|]. apply Z.div_lt_upper_bound; lia. }
    specialize (IH _ Hq). simpl in IH.
    cbn [icbrt_digits]. set (q := icbrt_digits digits (n / 8)) in *.
    pose proof (Z.mul_div_le n 8 ltac:(lia)).
    pose proof (Z.mul_succ_div_gt n 8 ltac:(lia)).
    cbv zeta. destruct (Z.leb_spec ((2 * q + 1) ^ 3) n); nia.
Qed.

Lemma icbrt_spec (n : Z) :
  0 ≤ n → 0 ≤ icbrt n ∧ icbrt n ^ 3 ≤ n < (icbrt n + 1) ^ 3.
Proof.
  intros Hn. apply icbrt_digits_spec. split; [done|].
  rewrite Nat2Z.inj_succ, Z2Nat.id by apply Z.log2_nonneg.
  destruct (Z.eq_dec n 0) as [->|Hne]; [done|].
  pose proof (Z.log2_spec n ltac:(lia)) as [_ Hlt].
  eapply Z.lt_le_trans; [exact Hlt|].
  apply Z.pow_le_mono_r; [lia|]. pose proof (Z.log2_nonneg n). lia.
Qed.

(** [round_cbrt] gives the integer within one half of the real cube root:
    [root - 1/2 < number^(1/3) < root + 1/2], written with cubes. *)
Lemma float_limit_large : 10000000 < float_limit.
Proof. reflexivity. Qed.

Lemma round_cbrt_spec (number : Z) :
  0 ≤ number < float_limit →
  ∃ root, round_cbrt number = Done root ∧ 0 ≤ root
          ∧ (2 * root - 1) ^ 3 < 8 * number < (2 * root + 1) ^ 3.
Proof.
  intros [Hn Hlim]. unfold round_cbrt.
  destruct (Z.leb_spec float_limit (Z.abs number)); [lia|].
  destruct (Z.ltb_spec number 0); [lia|].
  destruct (icbrt_spec number Hn) as (Hf & Hlo & Hhi).
  set (f := icbrt number) in *.
  destruct (Z.leb_spec ((2 * f + 1) ^ 3) (8 * number)) as [Hle|Hlt].
  - exists (f + 1). split; [done|]. split; [lia|].
    replace (2 * (f + 1) - 1) with (2 * f + 1) by lia.
    split; [|nia].
    assert ((2 * f + 1) ^ 3 ≠ 8 * number); [|lia].
    intros Heq. apply (f_equal Z.odd) in Heq.
    rewrite Z.odd_mul in Heq. change (Z.odd 8) with false in Heq.
    replace ((2 * f + 1) ^ 3) with ((2 * f + 1) * ((2 * f + 1) * (2 * f + 1)))
      in Heq by ring.
    rewrite !Z.odd_mul, Z.odd_add, Z.odd_mul in Heq. done.
  - exists f. split; [done|]. split; [done|]. split; [nia|done].
Qed.

Lemma cube_lt (a b : Z) : a ^ 3 < b ^ 3 → a < b.
Proof.
  intros H. destruct (Z.lt_ge_cases a b) as [|Hge]; [done|]. exfalso.
  assert (0 ≤ a * a + a * b + b * b) by nia.
  assert (a ^ 3 - b ^ 3 = (a - b) * (a * a + a * b + b * b)) by ring.
  nia.
Qed.



(** ** The search bounds *)

Lemma search_bounds_order (root lower upper : Z) :
  0 ≤ root → search_bounds root = (lower, upper) → 0 ≤ lower ≤ upper.
Proof.
  intros Hr. unfold search_bounds. intros [= <- <-].
  destruct (Z.leb_spec root 5); [lia|].
  assert (0 ≤ py_round (inject_Z root * (5 # 10))).
  { apply py_round_nonneg. apply Qmult_le_0_compat; [|done].
    change 0%Q with (inject_Z 0). rewrite <- Zle_Qle. done. }
  lia.
Qed.

(** Rounding in binary64 gives the bounds of the exact evaluation, for every
    [root] up to 2000, that is for every [number] up to 8,000,000,000. *)
Lemma b64_search_bounds_agree (root : Z) :
  0 ≤ root ≤ 2000 → b64_search_bounds root = Done (search_bounds root).
Proof.
  intros Hr.
  assert (forallb bounds_agree (seqZ 0 2001) = true) as H
    by (vm_compute; reflexivity).
  rewrite forallb_forall in H. specialize (H root).
  rewrite <- list_elem_of_In, elem_of_seqZ in H. specialize (H ltac:(lia)).
  unfold bounds_agree in H.
  destruct (b64_search_bounds root) as [[l u]| |]; try done.
  apply andb_true_iff in H as [Hl%Z.eqb_eq Hu%Z.eqb_eq].
  destruct (search_bounds root). simpl in *. by subst.
Qed.

(** ** The search of [decompose] *)

Lemma cubicity_triple (a b c : Z) :
  let mean := b64_div (b64_of_Z (a + b + c)) (b64_of_Z 3) in
  cubicity [a; b; c] =
  Done (b64_add
          (b64_add (SFabs (b64_sub mean (b64_of_Z a)))
                   (SFabs (b64_sub mean (b64_of_Z c))))
          (SFabs (b64_sub mean (b64_of_Z c)))).
Proof. reflexivity. Qed.

(** An update never makes the error of the best record larger. *)
Lemma consider_error_le (number : Z) (best best' : list Z * Z)
    (factors : list Z) :
  consider number best factors = Done best' → best'.2 ≤ best.2.
Proof.
  destruct best as [min_factors min_error]. unfold consider.
  intros (f0 & _ & H)%bind_inv_Done. apply bind_inv_Done in H as (f1 & _ & H).
  apply bind_inv_Done in H as (f2 & _ & H). revert H.
  destruct (Z.ltb_spec min_error (Z.abs (number - f0 * f1 * f2))) as [|Hge];
    [by intros [= <-]|].
  destruct (Z.gtb_spec min_error (Z.abs (number - f0 * f1 * f2))) as [Hgt|];
    [intros [= <-]; simpl; lia|].
  intros (c & _ & Hc)%bind_inv_Done.
  apply bind_inv_Done in Hc as (c_min & _ & Hc).
  destruct (SFltb c c_min); by simplify_eq.
Qed.

Lemma consider_triple (number min_error : Z) (min_factors : list Z)
    (a b c : Z) :
  consider number (min_factors, min_error) [a; b; c] =
  if min_error <? Z.abs (number - a * b * c) then
    Done (min_factors, min_error)
  else if min_error >? Z.abs (number - a * b * c) then
    Done ([a; b; c], Z.abs (number - a * b * c))
  else
    c1 ← cubicity [a; b; c];
    c_min ← cubicity min_factors;
    if SFltb c1 c_min then Done ([a; b; c], min_error)
    else Done (min_factors, min_error).
Proof. reflexivity. Qed.

Lemma consider_ok (number lower upper e0 : Z) (best : list Z * Z)
    (a b c : Z) :
  best_ok number lower upper e0 best →
  lower ≤ a ≤ upper → lower ≤ b ≤ upper → lower ≤ c ≤ upper →
  ∃ best', consider number best [a; b; c] = Done best'
           ∧ best_ok number lower upper e0 best'.
Proof.
  intros Hbest Ha Hb Hc.
  destruct best as [min_factors min_error].
  pose proof Hbest as (a0 & b0 & c0 & E0 & Hr0 & He0 & Hle0).
  simpl in E0, He0, Hle0. subst min_factors.
  rewrite consider_triple.
  destruct (Z.ltb_spec min_error (Z.abs (number - a * b * c)));
    [by eexists|].
  destruct (Z.gtb_spec min_error (Z.abs (number - a * b * c))).
  - eexists. split; [done|]. exists a, b, c. simpl.
    repeat split; try done; lia.
  - rewrite !cubicity_triple, !bind_Done.
    destruct (SFltb _ _); eexists; (split; [done|]); [|done].
    exists a, b, c. simpl. repeat split; try done; lia.
Qed.

Lemma for_each_ok (number lower upper e0 : Z) (ys : list (list Z))
    (best : list Z * Z) :
  best_ok number lower upper e0 best →
  Forall (λ s, length s = 3%nat ∧ Forall (λ x, lower ≤ x ≤ upper) s) ys →
  ∃ best', for_each number best ys = Done best'
           ∧ best_ok number lower upper e0 best'.
Proof.
  revert best. induction ys as [|s ys IH]; intros best Hbest Hys.
  - by exists best.
  - apply Forall_cons in Hys as [[Hl Hr] Hys].
    destruct s as [|a [|b [|c [|]]]]; try done.
    apply Forall_cons in Hr as [Ha Hr]. apply Forall_cons in Hr as [Hb Hr].
    apply Forall_inv in Hr as Hc. simpl in Hc.
    destruct (consider_ok number lower upper e0 best a b c)
      as (best1 & E1 & Hbest1); try done.
    simpl. rewrite E1, bind_Done. by apply IH.
Qed.

(** With enough fuel the search goes through the whole of [combos]. *)
Lemma decompose_search (fuel : nat) (number root lower upper : Z) :
  round_cbrt number = Done root →
  search_bounds root = (lower, upper) →
  lower ≤ upper →
  (binom (Z.to_nat (upper - lower) + 3) 3 ≤ fuel)%nat →
  decompose fuel number =
  for_each number (replicate 3 lower, Z.abs (number - lower ^ 3))
    (combos upper 3 (Z.to_nat (upper - lower))).
Proof.
  intros Hroot Hb Hle Hf. unfold decompose.
  rewrite Hroot, bind_Done, Hb, unique_enum_combos by done. simpl yielded.
  simpl ending. destruct (for_each _ _ _); done.
Qed.

Lemma decompose_ok (fuel : nat) (number root lower upper : Z) :
  round_cbrt number = Done root →
  search_bounds root = (lower, upper) →
  lower ≤ upper →
  (binom (Z.to_nat (upper - lower) + 3) 3 ≤ fuel)%nat →
  ∃ best, decompose fuel number = Done best
          ∧ best_ok number lower upper (Z.abs (number - lower ^ 3)) best.
Proof.
  intros Hroot Hb Hle Hf.
  rewrite (decompose_search fuel number root lower upper) by done.
  apply for_each_ok.
  - exists lower, lower, lower. simpl. repeat split; lia.
  - apply Forall_forall. intros s Hs.
    apply combos_valid in Hs as (Hl & Hr & _). split; [done|].
    eapply Forall_impl; [exact Hr|]. simpl. lia.
Qed.


Lemma for_each_app (number : Z) (best : list Z * Z) (xs ys : list (list Z)) :
  for_each number best (xs ++ ys) =
  best' ← for_each number best xs; for_each number best' ys.
Proof.
  revert best. induction xs as [|x xs IH]; intros best; [done|].
  simpl. destruct (consider number best x); simpl; [apply IH|done|done].
Qed.

(** Looking at one more candidate never makes the recorded error larger. *)
Lemma for_each_take_le (number : Z) (init b1 b2 : list Z * Z)
    (ys : list (list Z)) (k : nat) :
  for_each number init (take k ys) = Done b1 →
  for_each number init (take (S k) ys) = Done b2 →
  b2.2 ≤ b1.2.
Proof.
  intros H1 H2. destruct (ys !! k) as [y|] eqn:E.
  - rewrite (take_S_r _ _ _ E), for_each_app, H1, bind_Done in H2.
    simpl in H2. apply bind_inv_Done in H2 as (b & Hb & [= ->]).
    by apply consider_error_le in Hb.
  - apply lookup_ge_None in E.
    rewrite take_ge in H1, H2 by lia. rewrite H1 in H2. by simplify_eq.
Qed.

(** ** Signs in binary64 *)

Lemma not_negative_abs (f : spec_float) : not_negative (SFabs f).
Proof. by destruct f. Qed.

Lemma not_negative_round (m : positive) (e : Z) :
  not_negative (binary_round 53 1024 false m e).
Proof.
  unfold binary_round, binary_round_aux.
  destruct (shl_align _ _ _) as [mz ez].
  destruct (shr_fexp _ _ _ _ _) as [mrs' e'].
  destruct (shr_fexp _ _ _ _ _) as [mrs'' e''].
  destruct (shr_m mrs''); [done| |done]. by destruct (_ <=? _).
Qed.

Lemma not_negative_add (x y : spec_float) :
  not_negative x → not_negative y → not_negative (b64_add x y).
Proof.
  unfold b64_add.
  destruct x as [sx|sx| |sx mx ex], y as [sy|sy| |sy my ey];
    intros Hx Hy; try done;
    try (by destruct sx); try (by destruct sy); try (by destruct sx, sy).
  destruct sx; [done|]. destruct sy; [done|].
  unfold SFadd, binary_normalize. simpl cond_Zopp.
  destruct (shl_align mx ex _) as [mx' ex'], (shl_align my ey _) as [my' ey'].
  simpl fst. apply not_negative_round.
Qed.

Lemma not_negative_ltb (f : spec_float) :
  not_negative f → SFltb f (b64_of_Z 0) = false.
Proof. by destruct f as [[]|[]| |[] m e]. Qed.

Lemma search_size_eq (number root lower upper : Z) :
  round_cbrt number = Done root → search_bounds root = (lower, upper) →
  search_size number = binom (Z.to_nat (upper - lower) + 3) 3.
Proof. intros H1 H2. unfold search_size. by rewrite H1, H2. Qed.

(** * The claims *)

(** C1.  [decompose(27)] returns the triplet [3,3,3] with error 0 and
    [decompose(8)] returns [2,2,2] with error 0.  For 8 the bounds are 0 and
    7; the candidate [4,2,1], at place 45 of the enumeration, is the best
    record with error 0 once it has been looked at, and [2,2,2], at place 64,
    takes its place through the cubicity comparison. *)
Theorem decompose_cubes (fuel : nat) :
  (165 ≤ fuel)%nat →
  decompose fuel 27 = Done ([3; 3; 3], 0)
  ∧ decompose fuel 8 = Done ([2; 2; 2], 0)
  ∧ round_cbrt 8 = Done 2 ∧ search_bounds 2 = (0, 7)
  ∧ let ys := yielded (unique_enum fuel (VInt 0) (VInt 7) 3) in
    ys !! 45%nat = Some [4; 2; 1]
    ∧ for_each 8 ([0; 0; 0], 8) (take 46 ys) = Done ([4; 2; 1], 0)
    ∧ ys !! 64%nat = Some [2; 2; 2]
    ∧ for_each 8 ([0; 0; 0], 8) (take 64 ys) = Done ([4; 2; 1], 0)
    ∧ consider 8 ([4; 2; 1], 0) [2; 2; 2] = Done ([2; 2; 2], 0).
Proof.
  intros Hf. split; [|split; [|split; [|split]]]; try done.
  - by rewrite (decompose_search fuel 27 3 0 8).
  - rewrite (decompose_search fuel 8 2 0 7); try done.
    apply (Nat.le_trans _ 165); [vm_compute; lia | done].
  - rewrite unique_enum_combos; [|lia|apply (Nat.le_trans _ 165); [|done]].
    + simpl yielded. vm_compute. done.
    + vm_compute. lia.
Qed.

Lemma decompose_cubes_witness :
  decompose 165 27 = Done ([3; 3; 3], 0)
  ∧ decompose 165 8 = Done ([2; 2; 2], 0)
  ∧ round_cbrt 8 = Done 2 ∧ search_bounds 2 = (0, 7)
  ∧ let ys := yielded (unique_enum 165 (VInt 0) (VInt 7) 3) in
    ys !! 45%nat = Some [4; 2; 1]
    ∧ for_each 8 ([0; 0; 0], 8) (take 46 ys) = Done ([4; 2; 1], 0)
    ∧ ys !! 64%nat = Some [2; 2; 2]
    ∧ for_each 8 ([0; 0; 0], 8) (take 64 ys) = Done ([4; 2; 1], 0)
    ∧ consider 8 ([4; 2; 1], 0) [2; 2; 2] = Done ([2; 2; 2], 0).
Proof. apply (decompose_cubes 165). lia. Defined.

(** C2.  For [number] between 1 and 10,000,000, [decompose number] returns a
    triplet whose three components lie within the bounds [lower] and [upper]
    it computed (the same in binary64 as on the rationals), with the error
    of that triplet, which is at most
    [|number - lower^3|], the error of the first best record; and during the
    search, looking at one more candidate never makes the error of the best
    record larger. *)
Theorem decompose_within_bounds (fuel : nat) (number : Z) :
  1 ≤ number ≤ 10000000 →
  (search_size number ≤ fuel)%nat →
  ∃ root lower upper a b c error,
    round_cbrt number = Done root
    ∧ search_bounds root = (lower, upper)
    ∧ b64_search_bounds root = Done (lower, upper)
    ∧ decompose fuel number = Done ([a; b; c], error)
    ∧ (lower ≤ a ≤ upper ∧ lower ≤ b ≤ upper ∧ lower ≤ c ≤ upper)
    ∧ error = Z.abs (number - a * b * c)
    ∧ error ≤ Z.abs (number - lower ^ 3)
    ∧ ∀ k b1 b2,
        let ys := yielded (unique_enum fuel (VInt lower) (VInt upper) 3) in
        let init := (replicate 3 lower, Z.abs (number - lower ^ 3)) in
        for_each number init (take k ys) = Done b1 →
        for_each number init (take (S k) ys) = Done b2 →
        b2.2 ≤ b1.2.
Proof.
  intros Hn Hf. pose proof float_limit_large as Hlim.
  destruct (round_cbrt_spec number ltac:(lia)) as (root & Hroot & H0 & Hc & _).
  assert (root ≤ 2000) as H2000 by nia.
  pose proof (b64_search_bounds_agree root ltac:(lia)) as H64.
  destruct (search_bounds root) as [lower upper] eqn:Hb.
  pose proof (search_bounds_order root lower upper H0 Hb) as Hle.
  rewrite (search_size_eq number root lower upper) in Hf by done.
  destruct (decompose_ok fuel number root lower upper)
    as ([t error] & Hd & a & b & c & Ht & Hr & He & Hle'); try done; [lia|].
  simpl in Ht, He, Hle'. subst t.
  exists root, lower, upper, a, b, c, error.
  repeat (split; [done|]).
  intros k b1 b2 ys init. apply for_each_take_le.
Qed.

Lemma decompose_within_bounds_witness :
  ∃ root lower upper a b c error,
    round_cbrt 30 = Done root
    ∧ search_bounds root = (lower, upper)
    ∧ b64_search_bounds root = Done (lower, upper)
    ∧ decompose 165 30 = Done ([a; b; c], error)
    ∧ (lower ≤ a ≤ upper ∧ lower ≤ b ≤ upper ∧ lower ≤ c ≤ upper)
    ∧ error = Z.abs (30 - a * b * c)
    ∧ error ≤ Z.abs (30 - lower ^ 3)
    ∧ ∀ k b1 b2,
        let ys := yielded (unique_enum 165 (VInt lower) (VInt upper) 3) in
        let init := (replicate 3 lower, Z.abs (30 - lower ^ 3)) in
        for_each 30 init (take k ys) = Done b1 →
        for_each 30 init (take (S k) ys) = Done b2 →
        b2.2 ≤ b1.2.
Proof.
  apply (decompose_within_bounds 165 30); [lia | vm_compute; lia].
Defined.

(** C3.  For integers [lo <= hi] and a positive [len], [unique_enum lo hi len]
    runs to its end and yields [C(hi - lo + len, len)] sequences (the count
    times [(hi - lo)! len!] is [(hi - lo + len)!]), all
    different, each of length [len] with every entry between [lo] and [hi];
    the sequences yielded are all the never-increasing sequences over the
    range, one for each combination with repetition; and when [lo = hi] the
    only sequence yielded is the constant one. *)
Theorem unique_enum_combinations (lo hi : Z) (len fuel : nat) :
  lo ≤ hi → (0 < len)%nat →
  (binom (Z.to_nat (hi - lo) + len) len ≤ fuel)%nat →
  let r := unique_enum fuel (VInt lo) (VInt hi) len in
  ending r = Done tt
  ∧ length (yielded r) = binom (Z.to_nat (hi - lo) + len) len
  ∧ (length (yielded r) * (fact (Z.to_nat (hi - lo)) * fact len)
     = fact (Z.to_nat (hi - lo) + len))%nat
  ∧ NoDup (yielded r)
  ∧ (∀ s, s ∈ yielded r → length s = len ∧ Forall (λ x, lo ≤ x ≤ hi) s)
  ∧ (∀ s, length s = len → Forall (λ x, lo ≤ x ≤ hi) s →
          non_increasing s = true → s ∈ yielded r)
  ∧ (lo = hi → yielded r = [replicate len lo]).
Proof.
  intros Hle Hlen Hf r. subst r.
  rewrite unique_enum_combos by done. simpl.
  assert (hi - Z.of_nat (Z.to_nat (hi - lo)) = lo) as Hlo by lia.
  split; [done|]. split; [apply length_combos|].
  split; [rewrite length_combos; apply binom_fact|].
  split; [apply combos_NoDup|]. split; [|split].
  - intros s Hs. apply combos_valid in Hs as (Hl & Hr & _).
    rewrite Hlo in Hr. done.
  - intros s Hl Hr Hm. apply combos_complete; [done| |done].
    by rewrite Hlo.
  - intros ->. rewrite Z.sub_diag. change (Z.to_nat 0) with 0%nat.
    destruct (combos_chain hi len 0) as (xs & E & _ & _).
    pose proof (length_combos hi len 0) as Hl.
    rewrite E, Nat.add_0_l, binom_diag in Hl.
    destruct xs; [|done]. rewrite E. change (Z.of_nat 0) with 0.
    by rewrite Z.sub_0_r.
Qed.

Lemma unique_enum_combinations_witness :
  let r := unique_enum 6 (VInt 1) (VInt 3) 2 in
  ending r = Done tt
  ∧ length (yielded r) = binom (Z.to_nat (3 - 1) + 2) 2
  ∧ (length (yielded r) * (fact (Z.to_nat (3 - 1)) * fact 2)
     = fact (Z.to_nat (3 - 1) + 2))%nat
  ∧ NoDup (yielded r)
  ∧ (∀ s, s ∈ yielded r → length s = 2%nat ∧ Forall (λ x, 1 ≤ x ≤ 3) s)
  ∧ (∀ s, length s = 2%nat → Forall (λ x, 1 ≤ x ≤ 3) s →
          non_increasing s = true → s ∈ yielded r)
  ∧ (1 = 3 → yielded r = [replicate 2 1]).
Proof.
  apply (unique_enum_combinations 1 3 2 6); [lia | lia | vm_compute; lia].
Defined.

(** C4.  [unique_enum(1, 2, length=2)] yields [1,1], [2,1], [2,2] in that
    order and stops; [unique_enum(1, 2, length=3)] yields [1,1,1], [2,1,1],
    [2,2,1], [2,2,2] in that order and stops. *)
Theorem unique_enum_docstring_examples (fuel : nat) :
  (4 ≤ fuel)%nat →
  unique_enum fuel (VInt 1) (VInt 2) 2
  = Run [[1; 1]; [2; 1]; [2; 2]] (Done tt)
  ∧ unique_enum fuel (VInt 1) (VInt 2) 3
    = Run [[1; 1; 1]; [2; 1; 1]; [2; 2; 1]; [2; 2; 2]] (Done tt).
Proof.
  intros Hf. split; (rewrite unique_enum_combos; [done | lia | simpl; lia]).
Qed.

Lemma unique_enum_docstring_examples_witness :
  unique_enum 4 (VInt 1) (VInt 2) 2
  = Run [[1; 1]; [2; 1]; [2; 2]] (Done tt)
  ∧ unique_enum 4 (VInt 1) (VInt 2) 3
    = Run [[1; 1; 1]; [2; 1; 1]; [2; 2; 1]; [2; 2; 2]] (Done tt).
Proof. apply (unique_enum_docstring_examples 4). lia. Defined.

(** C5, as stated, fails: [unique_enum(1, 2, length=2)] yields [2,1], whose
    first element is larger than the next one. *)
Lemma unique_enum_yields_decreasing :
  [2; 1] ∈ yielded (unique_enum 3 (VInt 1) (VInt 2) 2)
  ∧ non_decreasing [2; 1] = false.
Proof. split; [|done]. vm_compute. apply elem_of_cons. right. by left. Qed.

(** C5, amended.  Every sequence yielded by [unique_enum lo hi len], for
    integers [lo <= hi], is never increasing: each element is greater than or
    equal to the next one. *)
Theorem unique_enum_non_increasing (fuel : nat) (lo hi : Z) (len : nat)
    (s : list Z) :
  lo ≤ hi → s ∈ yielded (unique_enum fuel (VInt lo) (VInt hi) len) →
  non_increasing s = true.
Proof.
  intros Hle Hs. apply unique_enum_yielded_combos in Hs; [|done].
  by apply combos_valid in Hs as (_ & _ & Hm).
Qed.

Lemma unique_enum_non_increasing_witness :
  [2; 1] ∈ yielded (unique_enum 3 (VInt 1) (VInt 2) 2)
  ∧ non_increasing [2; 1] = true.
Proof.
  assert ([2; 1] ∈ yielded (unique_enum 3 (VInt 1) (VInt 2) 2)) as Hin
    by (vm_compute; apply elem_of_cons; right; apply elem_of_cons; by left).
  split; [exact Hin|].
  apply (unique_enum_non_increasing 3 1 2 2 [2; 1]); [lia | exact Hin].
Defined.

(** C6, as stated, fails: with the floats 2.5 and 1.5 as bounds, which are
    not integers, the failure is not the one about integer bounds. *)
Lemma unique_enum_float_bounds_out_of_order :
  let f25 := b64_div (b64_of_Z 5) (b64_of_Z 2) in
  let f15 := b64_div (b64_of_Z 3) (b64_of_Z 2) in
  is_int (VFloat f25) = false ∧ is_int (VFloat f15) = false
  ∧ unique_enum 0 (VFloat f25) (VFloat f15) 3
    = Run [] (Raise (Exception "Lower bound exceeds upper bound")).
Proof. done. Qed.

(** C6, amended.  When [lower_bound > upper_bound] evaluates to true,
    [unique_enum] fails with "Lower bound exceeds upper bound", whatever the
    types of the bounds; when it evaluates to false and a bound is not an
    integer, [unique_enum] fails with "Lower and upper bound must be
    integers".  In both cases nothing is yielded before the failure. *)
Theorem unique_enum_rejects (fuel : nat) (lower_bound upper_bound : value)
    (len : nat) (gt : bool) :
  py_gt lower_bound upper_bound = Done gt →
  gt = true ∨ is_int lower_bound && is_int upper_bound = false →
  unique_enum fuel lower_bound upper_bound len =
  Run [] (Raise (Exception (if gt then "Lower bound exceeds upper bound"
                            else "Lower and upper bound must be integers"))).
Proof.
  intros Hgt H. unfold unique_enum. rewrite Hgt.
  destruct gt; [done|]. destruct H as [|H]; [done|].
  destruct lower_bound, upper_bound; done.
Qed.

Lemma unique_enum_rejects_witness :
  unique_enum 5 (VInt 1) (VFloat (b64_div (b64_of_Z 5) (b64_of_Z 2))) 3 =
  Run [] (Raise (Exception "Lower and upper bound must be integers"))
  ∧ unique_enum 5 (VInt 3) (VInt 2) 3 =
    Run [] (Raise (Exception "Lower bound exceeds upper bound")).
Proof.
  split.
  - apply (unique_enum_rejects 5 (VInt 1)
             (VFloat (b64_div (b64_of_Z 5) (b64_of_Z 2))) 3 false);
      [reflexivity | right; reflexivity].
  - apply (unique_enum_rejects 5 (VInt 3) (VInt 2) 3 true);
      [reflexivity | left; reflexivity].
Defined.








(** C10.  [decompose(0)] returns the triplet [0,0,0] with error 0; its
    bounds are [lower = 0] and [upper = 5]. *)
Theorem decompose_zero (fuel : nat) :
  (56 ≤ fuel)%nat →
  round_cbrt 0 = Done 0 ∧ search_bounds 0 = (0, 5)
  ∧ decompose fuel 0 = Done ([0; 0; 0], 0).
Proof.
  intros Hf. split; [done|]. split; [done|].
  rewrite (decompose_search fuel 0 0 0 5); try done.
Qed.

Lemma decompose_zero_witness :
  round_cbrt 0 = Done 0 ∧ search_bounds 0 = (0, 5)
  ∧ decompose 56 0 = Done ([0; 0; 0], 0).
Proof. apply (decompose_zero 56). lia. Defined.

(** ** Cross-checks of the model *)

(** Why [cubicity] is kept in binary64: [1,0,0] and [3,2,2] both score 4/3
    on the rationals, and binary64 puts the first below the second. *)
Lemma cubicity_rounding_example :
  ∃ x y, cubicity [1; 0; 0] = Done x ∧ cubicity [3; 2; 2] = Done y
         ∧ SFltb x y = true.
Proof. eexists _, _. split; [reflexivity|]. split; [reflexivity|]. done. Qed.

(** The conversion of an integer to a float overflows from [float_limit]
    on, and not before. *)
Lemma float_limit_b64 :
  b64_of_Z float_limit = S754_infinity false
  ∧ b64_of_Z (float_limit - 1) = S754_finite false (2 ^ 53 - 1) 971.
Proof. by vm_compute. Qed.

(** * Further properties of the code *)

(** ** The search of [decompose], continued *)

Lemma consider_le_candidate (number : Z) (best best' : list Z * Z)
    (a b c : Z) :
  consider number best [a; b; c] = Done best' →
  best'.2 ≤ Z.abs (number - a * b * c).
Proof.
  destruct best as [min_factors min_error]. rewrite consider_triple.
  destruct (Z.ltb_spec min_error (Z.abs (number - a * b * c)));
    [intros [= <-]; simpl; lia|].
  destruct (Z.gtb_spec min_error (Z.abs (number - a * b * c)));
    [intros [= <-]; simpl; lia|].
  intros (c1 & _ & H')%bind_inv_Done.
  apply bind_inv_Done in H' as (c_min & _ & H').
  destruct (SFltb c1 c_min); simplify_eq; simpl; lia.
Qed.

Lemma for_each_error_le (number : Z) (ys : list (list Z))
    (best best' : list Z * Z) :
  for_each number best ys = Done best' → best'.2 ≤ best.2.
Proof.
  revert best. induction ys as [|f ys IH]; intros best; simpl.
  - by intros [= ->].
  - intros (best1 & H1 & H2)%bind_inv_Done.
    apply consider_error_le in H1. apply IH in H2. lia.
Qed.

(** The recorded error is at most the error of every candidate looked at. *)
Lemma for_each_le_all (number : Z) (ys : list (list Z))
    (best best' : list Z * Z) (a b c : Z) :
  for_each number best ys = Done best' → [a; b; c] ∈ ys →
  best'.2 ≤ Z.abs (number - a * b * c).
Proof.
  revert best. induction ys as [|f ys IH]; intros best; simpl.
  - intros _ H. by apply elem_of_nil in H.
  - intros (best1 & H1 & H2)%bind_inv_Done [<-|Hin]%elem_of_cons.
    + apply consider_le_candidate in H1.
      apply for_each_error_le in H2. lia.
    + by apply (IH best1).
Qed.

(** The recorded triplet is the first one or one of the candidates. *)
Lemma consider_mem (number : Z) (best best' : list Z * Z) (f : list Z) :
  consider number best f = Done best' → best'.1 = best.1 ∨ best'.1 = f.
Proof.
  destruct best as [min_factors min_error]. unfold consider.
  intros (f0 & _ & H)%bind_inv_Done. apply bind_inv_Done in H as (f1 & _ & H).
  apply bind_inv_Done in H as (f2 & _ & H). revert H.
  destruct (_ <? _); [intros [= <-]; by left|].
  destruct (_ >? _); [intros [= <-]; by right|].
  intros (c & _ & Hc)%bind_inv_Done.
  apply bind_inv_Done in Hc as (c_min & _ & Hc).
  destruct (SFltb c c_min); simplify_eq; auto.
Qed.

Lemma for_each_mem (number : Z) (ys : list (list Z))
    (best best' : list Z * Z) :
  for_each number best ys = Done best' → best'.1 = best.1 ∨ best'.1 ∈ ys.
Proof.
  revert best. induction ys as [|f ys IH]; intros best; simpl.
  - intros [= ->]. by left.
  - intros (best1 & H1 & H2)%bind_inv_Done.
    apply consider_mem in H1. apply IH in H2.
    destruct H2 as [H2|H2]; [|right; apply elem_of_cons; by right].
    rewrite H2. destruct H1 as [H1|H1]; [by left|].
    right. apply elem_of_cons. by left.
Qed.

(** Three numbers put in order, largest first. *)
Lemma sort3 (lower upper x y z : Z) :
  lower ≤ x ≤ upper → lower ≤ y ≤ upper → lower ≤ z ≤ upper →
  ∃ a b c, c ≤ b ≤ a ∧ lower ≤ c ∧ a ≤ upper ∧ a * b * c = x * y * z.
Proof.
  intros Hx Hy Hz.
  destruct (Z.le_ge_cases x y), (Z.le_ge_cases y z), (Z.le_ge_cases x z).
  - exists z, y, x. split; [lia|]. split; [lia|]. split; [lia|ring].
  - exists z, y, x. split; [lia|]. split; [lia|]. split; [lia|ring].
  - exists y, z, x. split; [lia|]. split; [lia|]. split; [lia|ring].
  - exists y, x, z. split; [lia|]. split; [lia|]. split; [lia|ring].
  - exists z, x, y. split; [lia|]. split; [lia|]. split; [lia|ring].
  - exists x, z, y. split; [lia|]. split; [lia|]. split; [lia|ring].
  - exists x, y, z. split; [lia|]. split; [lia|]. split; [lia|ring].
  - exists x, y, z. split; [lia|]. split; [lia|]. split; [lia|ring].
Qed.

Lemma non_increasing_3 (a b c : Z) :
  non_increasing [a; b; c] = true ↔ c ≤ b ≤ a.
Proof.
  simpl. rewrite andb_true_r, andb_true_iff, !Z.leb_le. lia.
Qed.

(** What the search returns, with enough fuel: a triplet with its sides in
    order, within the bounds, and with the least error of all the triplets
    within the bounds. *)
Lemma decompose_best (fuel : nat) (number root lower upper : Z) :
  round_cbrt number = Done root →
  search_bounds root = (lower, upper) →
  lower ≤ upper →
  (binom (Z.to_nat (upper - lower) + 3) 3 ≤ fuel)%nat →
  ∃ a b c error,
    decompose fuel number = Done ([a; b; c], error)
    ∧ lower ≤ c ∧ c ≤ b ≤ a ∧ a ≤ upper
    ∧ error = Z.abs (number - a * b * c)
    ∧ ∀ x y z, lower ≤ x ≤ upper → lower ≤ y ≤ upper → lower ≤ z ≤ upper →
               error ≤ Z.abs (number - x * y * z).
Proof.
  intros Hroot Hb Hle Hf.
  destruct (decompose_ok fuel number root lower upper)
    as ([t error] & Hd & a & b & c & Ht & Hr & He & _); try done.
  simpl in Ht, He. subst t.
  rewrite (decompose_search fuel number root lower upper) in Hd by done.
  assert (hi_lo : upper - Z.of_nat (Z.to_nat (upper - lower)) = lower) by lia.
  exists a, b, c, error. split; [by rewrite
    (decompose_search fuel number root lower upper) by done|].
  assert (c ≤ b ≤ a) as Hs.
  { apply for_each_mem in Hd. cbn [fst] in Hd.
    destruct Hd as [[= -> -> ->]|Hin]; [lia|].
    apply combos_valid in Hin as (_ & _ & Hm).
    by apply non_increasing_3. }
  split; [lia|]. split; [done|]. split; [lia|]. split; [done|].
  intros x y z Hx Hy Hz.
  destruct (sort3 lower upper x y z Hx Hy Hz) as (a' & b' & c' & Ho & ? & ? & <-).
  apply (for_each_le_all _ _ _ _ a' b' c') in Hd; [done|].
  apply combos_complete; [done| |by apply non_increasing_3].
  rewrite hi_lo. repeat (apply Forall_cons; split; [lia|]). done.
Qed.

Lemma search_bounds_window (root lower upper : Z) :
  search_bounds root = (lower, upper) →
  lower ≤ Z.max 0 (root - 5) ∧ root + 5 ≤ upper.
Proof.
  unfold search_bounds. intros [= <- <-].
  destruct (Z.leb_spec root 5); lia.
Qed.

Lemma round_cbrt_cube (r : Z) :
  0 ≤ r → r ^ 3 < float_limit → round_cbrt (r ^ 3) = Done r.
Proof.
  intros Hr Hlim.
  destruct (round_cbrt_spec (r ^ 3) ltac:(lia)) as (root & -> & H0 & Hlo & Hhi).
  f_equal.
  replace (8 * r ^ 3) with ((2 * r) ^ 3) in Hlo, Hhi by ring.
  apply cube_lt in Hlo, Hhi. lia.
Qed.

Lemma decompose_sized (fuel : nat) (number : Z) :
  0 ≤ number ≤ 10000000 → (search_size number ≤ fuel)%nat →
  ∃ root lower upper,
    round_cbrt number = Done root ∧ 0 ≤ root
    ∧ search_bounds root = (lower, upper) ∧ 0 ≤ lower ≤ upper
    ∧ (binom (Z.to_nat (upper - lower) + 3) 3 ≤ fuel)%nat.
Proof.
  intros Hn Hf. pose proof float_limit_large as Hlim.
  destruct (round_cbrt_spec number ltac:(lia)) as (root & Hroot & H0 & _).
  destruct (search_bounds root) as [lower upper] eqn:Hb.
  pose proof (search_bounds_order root lower upper H0 Hb) as Hle.
  rewrite (search_size_eq number root lower upper) in Hf by done.
  by exists root, lower, upper.
Qed.

(** X1.  For [number] from 0 to 10,000,000, [decompose] returns a triplet
    [a >= b >= c] within the bounds together with its own error
    [|number - a*b*c|], and no triplet, in any order, whose sides lie within
    the bounds has a smaller error; the bounds include every side from
    [max(0, root - 5)] to [root + 5]. *)
Theorem decompose_optimal (fuel : nat) (number : Z) :
  0 ≤ number ≤ 10000000 → (search_size number ≤ fuel)%nat →
  ∃ root lower upper a b c error,
    round_cbrt number = Done root
    ∧ search_bounds root = (lower, upper)
    ∧ lower ≤ Z.max 0 (root - 5) ∧ root + 5 ≤ upper
    ∧ decompose fuel number = Done ([a; b; c], error)
    ∧ lower ≤ c ∧ c ≤ b ≤ a ∧ a ≤ upper
    ∧ error = Z.abs (number - a * b * c)
    ∧ ∀ x y z, lower ≤ x ≤ upper → lower ≤ y ≤ upper → lower ≤ z ≤ upper →
               error ≤ Z.abs (number - x * y * z).
Proof.
  intros Hn Hf.
  destruct (decompose_sized fuel number Hn Hf)
    as (root & lower & upper & Hroot & H0 & Hb & Hle & Hf').
  destruct (decompose_best fuel number root lower upper)
    as (a & b & c & error & Hd & Hc & Hs & Ha & He & Hmin);
    try done; [lia|].
  destruct (search_bounds_window root lower upper Hb) as [Hw1 Hw2].
  by exists root, lower, upper, a, b, c, error.
Qed.

Lemma decompose_optimal_witness :
  ∃ root lower upper a b c error,
    round_cbrt 30 = Done root
    ∧ search_bounds root = (lower, upper)
    ∧ lower ≤ Z.max 0 (root - 5) ∧ root + 5 ≤ upper
    ∧ decompose 165 30 = Done ([a; b; c], error)
    ∧ lower ≤ c ∧ c ≤ b ≤ a ∧ a ≤ upper
    ∧ error = Z.abs (30 - a * b * c)
    ∧ ∀ x y z, lower ≤ x ≤ upper → lower ≤ y ≤ upper → lower ≤ z ≤ upper →
               error ≤ Z.abs (30 - x * y * z).
Proof. apply (decompose_optimal 165 30); [lia | vm_compute; lia]. Defined.

(** X2.  For [number] from 0 to 10,000,000, the sides of the triplet
    [decompose] returns come largest first: [a >= b >= c >= 0]. *)
Theorem decompose_sides_ordered (fuel : nat) (number : Z) :
  0 ≤ number ≤ 10000000 → (search_size number ≤ fuel)%nat →
  ∃ a b c error,
    decompose fuel number = Done ([a; b; c], error) ∧ 0 ≤ c ∧ c ≤ b ≤ a.
Proof.
  intros Hn Hf.
  destruct (decompose_sized fuel number Hn Hf)
    as (root & lower & upper & Hroot & H0 & Hb & Hle & Hf').
  destruct (decompose_best fuel number root lower upper)
    as (a & b & c & error & Hd & Hc & Hs & _); try done; [lia|].
  exists a, b, c, error. split; [done|]. split; [lia|done].
Qed.

Lemma decompose_sides_ordered_witness :
  ∃ a b c error,
    decompose 165 30 = Done ([a; b; c], error) ∧ 0 ≤ c ∧ c ≤ b ≤ a.
Proof. apply (decompose_sides_ordered 165 30); [lia | vm_compute; lia]. Defined.

(** The sides and the error for a number that is at least 1. *)
Lemma decompose_positive (fuel : nat) (number : Z) :
  1 ≤ number ≤ 10000000 → (search_size number ≤ fuel)%nat →
  ∃ root lower upper a b c error,
    round_cbrt number = Done root ∧ 0 ≤ root
    ∧ (2 * root - 1) ^ 3 < 8 * number < (2 * root + 1) ^ 3
    ∧ search_bounds root = (lower, upper)
    ∧ decompose fuel number = Done ([a; b; c], error)
    ∧ lower ≤ c ∧ 1 ≤ c ∧ c ≤ b ≤ a ∧ a ≤ upper ∧ error < number.
Proof.
  intros Hn Hf. pose proof float_limit_large as Hlim.
  destruct (decompose_sized fuel number ltac:(lia) Hf)
    as (root & lower & upper & Hroot & H0 & Hb & Hle & Hf').
  destruct (decompose_best fuel number root lower upper)
    as (a & b & c & error & Hd & Hc & Hs & Ha & He & Hmin); try done; [lia|].
  destruct (search_bounds_window root lower upper Hb) as [Hw1 Hw2].
  destruct (round_cbrt_spec number ltac:(lia)) as (root' & E & _ & Hcube).
  rewrite Hroot in E. injection E as <-.
  exists root, lower, upper, a, b, c, error.
  do 5 (split; [done|]).
  destruct (Z.le_gt_cases lower 0) as [Hl0|Hl0].
  - specialize (Hmin 1 1 1 ltac:(lia) ltac:(lia) ltac:(lia)).
    assert (c ≠ 0) by (intros ->; rewrite Z.mul_0_r in He; lia).
    split; [done|]. split; [lia|]. do 2 (split; [done|]). lia.
  - split; [done|]. split; [lia|]. do 2 (split; [done|]).
    specialize (Hmin lower lower lower ltac:(lia) ltac:(lia) ltac:(lia)).
    destruct (Z.le_gt_cases (lower * lower * lower) number); [lia|].
    assert (lower ≤ root - 5) by lia.
    pose proof (Z.pow_le_mono_l (2 * lower) (2 * root - 1) 3 ltac:(lia)) as Hp.
    replace ((2 * lower) ^ 3) with (8 * (lower * lower * lower)) in Hp by ring.
    lia.
Qed.

(** X3.  For [number] from 1 to 10,000,000, no side of the returned
    triplet is zero (so the divisions by the sides in [modify_build] are not
    by zero), and the error is less than [number]. *)
Theorem decompose_sides_positive (fuel : nat) (number : Z) :
  1 ≤ number ≤ 10000000 → (search_size number ≤ fuel)%nat →
  ∃ a b c error,
    decompose fuel number = Done ([a; b; c], error)
    ∧ 1 ≤ c ∧ c ≤ b ≤ a ∧ error < number.
Proof.
  intros Hn Hf.
  destruct (decompose_positive fuel number Hn Hf)
    as (_ & _ & _ & a & b & c & error & _ & _ & _ & _ & Hd & _ & Hc & Hs
        & _ & He).
  by exists a, b, c, error.
Qed.

Lemma decompose_sides_positive_witness :
  ∃ a b c error,
    decompose 165 30 = Done ([a; b; c], error)
    ∧ 1 ≤ c ∧ c ≤ b ≤ a ∧ error < 30.
Proof. apply (decompose_sides_positive 165 30); [lia | vm_compute; lia]. Defined.

(** X4.  A perfect cube up to 10,000,000 is decomposed without error: for
    [r >= 0] with [r^3 <= 10^7], [decompose (r^3)] returns a triplet whose
    product is [r^3]. *)
Theorem decompose_perfect_cube (fuel : nat) (r : Z) :
  0 ≤ r → r ^ 3 ≤ 10000000 → (search_size (r ^ 3) ≤ fuel)%nat →
  round_cbrt (r ^ 3) = Done r
  ∧ ∃ a b c, decompose fuel (r ^ 3) = Done ([a; b; c], 0)
             ∧ a * b * c = r ^ 3.
Proof.
  intros Hr Hmax Hf. pose proof float_limit_large as Hlim.
  pose proof (round_cbrt_cube r Hr ltac:(lia)) as Hroot.
  split; [done|].
  destruct (decompose_sized fuel (r ^ 3) ltac:(lia) Hf)
    as (root & lower & upper & Hroot' & H0 & Hb & Hle & Hf').
  rewrite Hroot in Hroot'. injection Hroot' as <-.
  destruct (decompose_best fuel (r ^ 3) r lower upper)
    as (a & b & c & error & Hd & Hc & Hs & Ha & He & Hmin); try done; [lia|].
  destruct (search_bounds_window r lower upper Hb) as [Hw1 Hw2].
  specialize (Hmin r r r ltac:(lia) ltac:(lia) ltac:(lia)).
  replace (r ^ 3 - r * r * r) with 0 in Hmin by ring.
  assert (error = 0) as -> by lia.
  exists a, b, c. split; [done|]. lia.
Qed.

Lemma decompose_perfect_cube_witness :
  round_cbrt (4 ^ 3) = Done 4
  ∧ ∃ a b c, decompose 220 (4 ^ 3) = Done ([a; b; c], 0)
             ∧ a * b * c = 4 ^ 3.
Proof.
  apply (decompose_perfect_cube 220 4); [lia | lia | vm_compute; lia].
Defined.

Lemma decompose_run (fuel : nat) (number root lower upper : Z) :
  round_cbrt number = Done root →
  search_bounds root = (lower, upper) →
  lower ≤ upper →
  (search_size number ≤ fuel)%nat →
  decompose fuel number =
  for_each number (replicate 3 lower, Z.abs (number - lower ^ 3))
    (combos upper 3 (Z.to_nat (upper - lower))).
Proof.
  intros Hroot Hb Hle Hf.
  rewrite (search_size_eq number root lower upper) in Hf by done.
  by apply (decompose_search fuel number root).
Qed.

(** X5.  The numbers the docstring of [modify_build] calls exact: every
    [number] below 11 is decomposed without error, and 11 is not. *)
Theorem decompose_small_exact (fuel : nat) (number : Z) :
  0 ≤ number ≤ 11 → (search_size number ≤ fuel)%nat →
  ∃ triplet error,
    decompose fuel number = Done (triplet, error)
    ∧ (error = 0 ↔ number < 11).
Proof.
  intros Hn Hf.
  assert (number ∈ seqZ 0 12) as Hin by (apply elem_of_seqZ; lia).
  assert (∀ root lower upper t e,
            round_cbrt number = Done root →
            search_bounds root = (lower, upper) → lower ≤ upper →
            for_each number (replicate 3 lower, Z.abs (number - lower ^ 3))
              (combos upper 3 (Z.to_nat (upper - lower))) = Done (t, e) →
            (e = 0 ↔ number < 11) →
            ∃ triplet error, decompose fuel number = Done (triplet, error)
                             ∧ (error = 0 ↔ number < 11)) as Hrun.
  { intros root lower upper t e Hroot Hb Hle Hd He. exists t, e.
    by rewrite (decompose_run fuel number root lower upper). }
  clear Hn.
  repeat (apply elem_of_cons in Hin as [->|Hin];
          [eapply Hrun; [reflexivity | reflexivity | done
                         | vm_compute; reflexivity | lia]|]).
  by apply elem_of_nil in Hin.
Qed.

Lemma decompose_small_exact_witness :
  ∃ triplet error,
    decompose 120 10 = Done (triplet, error) ∧ (error = 0 ↔ 10 < 11).
Proof. apply (decompose_small_exact 120 10); [lia | vm_compute; lia]. Defined.

(** From [root = 7] on, the upper bound of the search is at most 7 times the
    lower one. *)
Lemma search_bounds_ratio (root lower upper : Z) :
  7 ≤ root → search_bounds root = (lower, upper) → upper ≤ 7 * lower.
Proof.
  intros Hr. unfold search_bounds. intros [= <- <-].
  destruct (Z.leb_spec root 5); [lia|].
  pose proof (py_round_floor (inject_Z root * (17 # 10))) as [_ Hu].
  pose proof (py_round_floor (inject_Z root * (5 # 10))) as [Hl _].
  assert (Qfloor (inject_Z root * (17 # 10)) = root * 17 / 10) as Eu by done.
  assert (Qfloor (inject_Z root * (5 # 10)) = root * 5 / 10) as El by done.
  rewrite Eu in Hu. rewrite El in Hl. clear Eu El.
  generalize dependent (py_round (inject_Z root * (17 # 10))).
  generalize dependent (py_round (inject_Z root * (5 # 10))).
  intros l Hl u Hu. Z.div_mod_to_equations. lia.
Qed.

(** Below, the numbers are few enough to be tried one by one. *)
Lemma sides_within_small : forallb (sides_within 7) (seqZ 1 274) = true.
Proof. by vm_compute. Qed.

(** More fuel than the search needs changes nothing. *)
Lemma decompose_fuel (fuel : nat) (number : Z) :
  0 ≤ number ≤ 10000000 → (search_size number ≤ fuel)%nat →
  decompose fuel number = decompose (search_size number) number.
Proof.
  intros Hn Hf.
  destruct (decompose_sized fuel number Hn Hf)
    as (root & lower & upper & Hroot & H0 & Hb & Hle & _).
  rewrite (decompose_run fuel number root lower upper) by (done || lia).
  by rewrite (decompose_run (search_size number) number root lower upper)
    by (done || lia).
Qed.

(** X6.  For [number] from 1 to 10,000,000, the largest side of the
    returned triplet is at most 7 times the smallest, and 7 times is reached:
    [decompose(7)] returns [7,1,1].  The docstring of [decompose] promises
    that no side is 3 times another; the code does not keep to it. *)
Theorem decompose_side_ratio (fuel : nat) (number : Z) :
  1 ≤ number ≤ 10000000 → (search_size number ≤ fuel)%nat →
  ∃ a b c error,
    decompose fuel number = Done ([a; b; c], error)
    ∧ 1 ≤ c ∧ a ≤ 7 * c
    ∧ (number = 7 → [a; b; c] = [7; 1; 1]).
Proof.
  intros Hn Hf.
  destruct (decompose_positive fuel number Hn Hf)
    as (root & lower & upper & a & b & c & error
        & Hroot & H0 & Hcube & Hb & Hd & Hlc & Hc & Hs & Ha & He).
  exists a, b, c, error. split; [done|]. split; [done|].
  destruct (Z.le_gt_cases 7 root) as [Hr|Hr].
  - split; [pose proof (search_bounds_ratio root lower upper Hr Hb); lia|].
    intros ->.
    pose proof (Z.pow_le_mono_l 13 (2 * root - 1) 3 ltac:(lia)). lia.
  - pose proof (Z.pow_le_mono_l (2 * root + 1) 13 3 ltac:(lia)) as Hp.
    assert (number ∈ seqZ 1 274) as Hin by (apply elem_of_seqZ; lia).
    pose proof sides_within_small as Hall.
    rewrite forallb_forall in Hall.
    specialize (Hall number (proj1 (list_elem_of_In _ _) Hin)).
    unfold sides_within in Hall.
    rewrite (decompose_fuel fuel number) in Hd by (done || lia).
    rewrite Hd in Hall. split; [lia|].
    intros ->. vm_compute in Hd. by injection Hd as <- <- <- _.
Qed.

Lemma decompose_side_ratio_witness :
  ∃ a b c error,
    decompose 120 7 = Done ([a; b; c], error)
    ∧ 1 ≤ c ∧ a ≤ 7 * c
    ∧ (7 = 7 → [a; b; c] = [7; 1; 1]).
Proof. apply (decompose_side_ratio 120 7); [lia | vm_compute; lia]. Defined.

(** ** [unique_enum] and [cubicity], continued *)

(** X7.  With [length = 0], [unique_enum] yields the empty sequence once and
    stops, whatever the integer bounds in order. *)
Theorem unique_enum_length_zero (fuel : nat) (lo hi : Z) :
  lo ≤ hi → unique_enum fuel (VInt lo) (VInt hi) 0 = Run [[]] (Done tt).
Proof.
  intros Hle. unfold unique_enum, py_gt.
  destruct (Z.ltb_spec hi lo); [lia|]. by destruct fuel.
Qed.

Lemma unique_enum_length_zero_witness :
  unique_enum 0 (VInt 1) (VInt 2) 0 = Run [[]] (Done tt).
Proof. apply (unique_enum_length_zero 0 1 2). lia. Defined.

Lemma ref_update_Done (r : ref) (f : list Z → outcome (list Z)) (h : heap)
    (l l' : list Z) :
  h !! r = Some l → f l = Done l' →
  ref_update r f h = (<[r := l']> h, Done tt).
Proof.
  intros Hr Hf. unfold ref_update, contents.
  by rewrite (list_lookup_total_correct _ _ _ Hr), Hf.
Qed.

Lemma ref_getitem_eq (r : ref) (i : nat) (h : heap) (l : list Z) :
  h !! r = Some l → ref_getitem r i h = (h, getitem l i).
Proof.
  intros Hr. unfold ref_getitem, contents.
  by rewrite (list_lookup_total_correct _ _ _ Hr).
Qed.

Lemma heap_insert_lookup (r : ref) (h : heap) (l l' : list Z) :
  h !! r = Some l → <[r := l']> h !! r = Some l'.
Proof.
  intros Hr. apply list_lookup_insert_eq. by eapply lookup_lt_Some.
Qed.

Lemma ref_overflow_loop_Done (n : nat) (upper_bound : Z) (r : ref) (i i' : nat)
    (h : heap) (l l' : list Z) :
  h !! r = Some l →
  overflow_loop n upper_bound i l = Done (i', l') →
  ref_overflow_loop n upper_bound i r h = (<[r := l']> h, Done i').
Proof.
  revert i h l. induction n as [|n IH]; intros i h l Hr; simpl;
    unfold cmd_bind; rewrite (ref_getitem_eq r i h l Hr);
    destruct (getitem l i) as [x| |]; simpl; try done;
    destruct (upper_bound <? x); try done.
  - intros [= <- <-]. unfold cmd_ret. by rewrite list_insert_id.
  - destruct (incritem l (S i)) as [l1| |] eqn:E; simpl; try done.
    intros Hl. unfold ref_incritem.
    rewrite (ref_update_Done r _ h l l1 Hr E).
    rewrite (IH (S i) (<[r := l1]> h) l1 (heap_insert_lookup r h l l1 Hr) Hl).
    by rewrite list_insert_insert_eq.
  - intros [= <- <-]. unfold cmd_ret. by rewrite list_insert_id.
Qed.

Lemma ref_reset_loop_Done (js : list nat) (i : nat) (r : ref) (h : heap)
    (l l' : list Z) :
  h !! r = Some l →
  reset_loop js i l = Done l' →
  ref_reset_loop js i r h = (<[r := l']> h, Done tt).
Proof.
  revert h l. induction js as [|j js IH]; intros h l Hr; simpl.
  - intros [= <-]. unfold cmd_ret. by rewrite list_insert_id.
  - unfold cmd_bind. rewrite (ref_getitem_eq r i h l Hr).
    destruct (getitem l i) as [x| |]; simpl; try done.
    destruct (setitem l j x) as [l1| |] eqn:E; simpl; try done.
    intros Hl. unfold ref_setitem.
    rewrite (ref_update_Done r _ h l l1 Hr E).
    rewrite (IH (<[r := l1]> h) l1 (heap_insert_lookup r h l l1 Hr) Hl).
    by rewrite list_insert_insert_eq.
Qed.

Lemma ref_advance_Done (upper_bound : Z) (r : ref) (h : heap)
    (l l' : list Z) :
  h !! r = Some l →
  advance upper_bound l = Done l' →
  ref_advance upper_bound r h = (<[r := l']> h, Done tt).
Proof.
  intros Hr. unfold advance, ref_advance, cmd_bind, ref_incritem, contents.
  rewrite (list_lookup_total_correct _ _ _ Hr).
  destruct (incritem l 0) as [l1| |] eqn:E1; simpl; try done.
  rewrite (ref_update_Done r _ h l l1 Hr E1).
  destruct (overflow_loop (length l) upper_bound 0 l1) as [[i l2]| |] eqn:E2;
    simpl; try done.
  rewrite (ref_overflow_loop_Done _ _ r 0 i (<[r := l1]> h) l1 l2
             (heap_insert_lookup r h l l1 Hr) E2).
  rewrite list_insert_insert_eq. intros Hl.
  rewrite (ref_reset_loop_Done _ i r (<[r := l2]> h) l2 l'
             (heap_insert_lookup r h l l2 Hr) Hl).
  by rewrite list_insert_insert_eq.
Qed.

Lemma ref_iterate_chain (ub : Z) (top : list Z) (xs : list (list Z))
    (x : list Z) (fuel : nat) (cur topr : ref) (h : heap) :
  chain (link ub top) x xs → last (x :: xs) = Some top →
  (length xs ≤ fuel)%nat →
  h !! cur = Some x → h !! topr = Some top → cur ≠ topr →
  ref_iterate fuel ub topr cur h =
  RefRun (replicate (length xs) cur) (Done tt) (<[cur := top]> h).
Proof.
  revert x fuel h. induction xs as [|y ys IH]; intros x fuel h Hc Hl Hf Hx Ht Hne.
  - injection Hl as ->.
    assert (contents cur h = contents topr h) as Heq.
    { unfold contents. by rewrite (list_lookup_total_correct _ _ _ Hx),
        (list_lookup_total_correct _ _ _ Ht). }
    destruct fuel; simpl; rewrite decide_True by done;
      by rewrite list_insert_id.
  - destruct Hc as [[Hxt Hadv] Hc]. destruct fuel as [|fuel]; [simpl in Hf; lia|].
    assert (contents cur h ≠ contents topr h) as Hneq.
    { unfold contents. by rewrite (list_lookup_total_correct _ _ _ Hx),
        (list_lookup_total_correct _ _ _ Ht). }
    simpl. rewrite decide_False by done.
    rewrite (ref_advance_Done ub cur h x y Hx Hadv).
    rewrite (IH y fuel (<[cur := y]> h)); try done.
    + unfold ref_yield. simpl. by rewrite list_insert_insert_eq.
    + simpl in Hf. lia.
    + by eapply heap_insert_lookup.
    + by rewrite list_lookup_insert_ne.
Qed.

(** X8.  The list yielded is one object: for integers [lo <= hi],
    [unique_enum lo hi len] yields the same reference [C(hi - lo + len, len)]
    times, and the list it leads to holds [hi] in every place when the
    generator ends; a consumer that keeps what is yielded without copying, as
    [list(...)] does, ends with that many references to that one list. *)
Theorem unique_enum_one_object (fuel : nat) (lo hi : Z) (len : nat)
    (h : heap) :
  lo ≤ hi →
  (binom (Z.to_nat (hi - lo) + len) len ≤ fuel)%nat →
  let count := binom (Z.to_nat (hi - lo) + len) len in
  let run := unique_enum_ref fuel (VInt lo) (VInt hi) len h in
  ref_ending run = Done tt
  ∧ yielded_refs run = replicate count (length h)
  ∧ heap_after run = h ++ [replicate len hi; replicate len hi]
  ∧ listed run = replicate count (replicate len hi).
Proof.
  intros Hle Hf count run.
  destruct (combos_chain hi len (Z.to_nat (hi - lo))) as (xs & Hxs & Hc & Hl).
  pose proof (length_combos hi len (Z.to_nat (hi - lo))) as Hlen.
  rewrite Hxs in Hlen, Hl. simpl in Hlen.
  replace (hi - Z.of_nat (Z.to_nat (hi - lo))) with lo in * by lia.
  assert (run = RefRun (replicate count (length h)) (Done tt)
                  (h ++ [replicate len hi; replicate len hi])) as ->.
  { unfold run, unique_enum_ref, py_gt, new_list.
    destruct (Z.ltb_spec hi lo); [lia|].
    rewrite (ref_iterate_chain hi (replicate len hi) xs (replicate len lo)
               fuel (length h) (length (h ++ [replicate len lo])));
      try done.
    - unfold ref_yield, count. simpl. rewrite <- Hlen. simpl. f_equal.
      rewrite <- (assoc_L (++)). simpl.
      by rewrite insert_app_r_alt, Nat.sub_diag by lia.
    - fold count in Hlen, Hf. lia.
    - rewrite <- (assoc_L (++)). by rewrite lookup_app_r, Nat.sub_diag by lia.
    - by rewrite lookup_app_r, Nat.sub_diag by lia.
    - rewrite length_app. simpl. lia. }
  repeat (split; [done|]).
  unfold listed, contents. simpl. rewrite fmap_replicate. f_equal.
  apply list_lookup_total_correct.
  by rewrite lookup_app_r, Nat.sub_diag by lia.
Qed.

Lemma unique_enum_one_object_witness :
  let count := binom (Z.to_nat (2 - 1) + 2) 2 in
  let run := unique_enum_ref 3 (VInt 1) (VInt 2) 2 [] in
  ref_ending run = Done tt
  ∧ yielded_refs run = replicate count (length ([] : list (list Z)))
  ∧ heap_after run = [] ++ [replicate 2 2; replicate 2 2]
  ∧ listed run = replicate count (replicate 2 2).
Proof.
  apply (unique_enum_one_object 3 1 2 2 []); [lia | vm_compute; lia].
Defined.

(** X9.  [cubicity] on a list of integers of any length, the entries and
    their sum being up to [2^53] in absolute value: with fewer than three
    elements it raises [IndexError]; with three or more it scores the
    elements at indices 0 and 2 against the mean of all the elements over 3,
    and the score is not negative. *)
Theorem cubicity_any_length (l : list Z) :
  Forall (λ z, Z.abs z ≤ 2 ^ 53) l → Z.abs (py_sum l) ≤ 2 ^ 53 →
  ((length l < 3)%nat →
   cubicity l = Raise (IndexError "list index out of range"))
  ∧ ((3 ≤ length l)%nat →
     ∃ t0 t2, l !! 0%nat = Some t0 ∧ l !! 2%nat = Some t2
       ∧ let m := b64_div (b64_of_Z (py_sum l)) (b64_of_Z 3) in
         let score :=
           b64_add (b64_add (SFabs (b64_sub m (b64_of_Z t0)))
                            (SFabs (b64_sub m (b64_of_Z t2))))
                   (SFabs (b64_sub m (b64_of_Z t2))) in
         cubicity l = Done score ∧ SFltb score (b64_of_Z 0) = false).
Proof.
  intros _ _. split.
  - intros Hl. destruct l as [|a [|b [|c l]]]; try done. simpl in Hl. lia.
  - intros Hl. destruct l as [|a [|b [|c l]]]; try (simpl in Hl; lia).
    exists a, c. split; [done|]. split; [done|]. split; [done|].
    apply not_negative_ltb, not_negative_add; [apply not_negative_add|];
      apply not_negative_abs.
Qed.

Lemma cubicity_any_length_witness :
  ((length [4; 5; 6; 7] < 3)%nat →
   cubicity [4; 5; 6; 7] = Raise (IndexError "list index out of range"))
  ∧ ((3 ≤ length [4; 5; 6; 7])%nat →
     ∃ t0 t2, [4; 5; 6; 7] !! 0%nat = Some t0 ∧ [4; 5; 6; 7] !! 2%nat = Some t2
       ∧ let m := b64_div (b64_of_Z (py_sum [4; 5; 6; 7])) (b64_of_Z 3) in
         let score :=
           b64_add (b64_add (SFabs (b64_sub m (b64_of_Z t0)))
                            (SFabs (b64_sub m (b64_of_Z t2))))
                   (SFabs (b64_sub m (b64_of_Z t2))) in
         cubicity [4; 5; 6; 7] = Done score
         ∧ SFltb score (b64_of_Z 0) = false).
Proof.
  apply (cubicity_any_length [4; 5; 6; 7]);
    [repeat constructor; by vm_compute | by vm_compute].
Defined.

(** ** The rewriting loop of [modify_build] *)

Lemma setline_length (data data' : list string) (i : nat) (x : string) :
  setline data i x = Done data' → length data' = length data.
Proof.
  unfold setline. case_decide; [|done]. intros [= <-]. apply length_insert.
Qed.

Lemma put_lines_length (js : list nat) (lines : list string) (i : nat)
    (data data' : list string) :
  put_lines js lines i data = Done data' → length data' = length data.
Proof.
  revert data. induction js as [|j js IH]; intros data; simpl.
  - by intros [= <-].
  - intros (x & _ & H)%bind_inv_Done.
    apply bind_inv_Done in H as (d1 & H1 & H2).
    apply setline_length in H1. apply IH in H2. congruence.
Qed.

Lemma rewrite_at_length (t : build_lines) (i : nat)
    (data data' : list string) :
  rewrite_at t i data = Done data' → length data' = length data.
Proof.
  unfold rewrite_at. intros (line & _ & H)%bind_inv_Done.
  apply bind_inv_Done in H as (d1 & H1 & H).
  apply bind_inv_Done in H as (d2 & H2 & H).
  apply bind_inv_Done in H as (d3 & H3 & H).
  apply bind_inv_Done in H as (d4 & H4 & H).
  assert (∀ (c : bool) lines d d',
            (if c then put_lines (seq 1 3) lines i d else Done d) = Done d' →
            length d' = length d) as Hstep.
  { intros [] lines d d'; [apply put_lines_length | by intros [= <-]]. }
  apply Hstep in H1, H2, H3, H4.
  destruct (contains "na[*]" line).
  - apply bind_inv_Done in H as (d5 & H5 & H6).
    apply setline_length in H5, H6. congruence.
  - injection H as <-. congruence.
Qed.

Lemma rewrite_loop_length (t : build_lines) (indices : list nat)
    (data data' : list string) :
  rewrite_loop t indices data = Done data' → length data' = length data.
Proof.
  revert data. induction indices as [|i indices IH]; intros data; simpl.
  - by intros [= <-].
  - intros (d1 & H1 & H2)%bind_inv_Done.
    apply rewrite_at_length in H1. apply IH in H2. congruence.
Qed.

Lemma plain_spec (line : string) :
  plain line = true →
  contains "write_once" line = false ∧ contains "new SPCE" line = false
  ∧ contains "new NaIon" line = false ∧ contains "new ClIon" line = false
  ∧ contains "na[*]" line = false.
Proof.
  unfold plain. rewrite negb_true_iff, !orb_false_iff. tauto.
Qed.

Lemma rewrite_at_plain (t : build_lines) (i : nat) (data : list string)
    (line : string) :
  data !! i = Some line → plain line = true → rewrite_at t i data = Done data.
Proof.
  intros Hi (H1 & H2 & H3 & H4 & H5)%plain_spec.
  unfold rewrite_at, getline. rewrite Hi. simpl.
  by rewrite H1, H2, H3, H4, H5.
Qed.

Lemma rewrite_loop_plain (t : build_lines) (indices : list nat)
    (data : list string) :
  (∀ i, i ∈ indices → ∃ line, data !! i = Some line ∧ plain line = true) →
  rewrite_loop t indices data = Done data.
Proof.
  induction indices as [|i indices IH]; intros H; [done|]. simpl.
  destruct (H i) as (line & Hi & Hp); [by left|].
  rewrite (rewrite_at_plain t i data line) by done. simpl.
  apply IH. intros j Hj. apply H. by right.
Qed.

Lemma rewrite_loop_app (t : build_lines) (is1 is2 : list nat)
    (data : list string) :
  rewrite_loop t (is1 ++ is2) data =
  data' ← rewrite_loop t is1 data; rewrite_loop t is2 data'.
Proof.
  revert data. induction is1 as [|i is1 IH]; intros data; [done|].
  simpl. destruct (rewrite_at t i data); simpl; [apply IH|done|done].
Qed.

(** What happens at an index does not depend on the lines before it. *)
Lemma getline_app (pre rest : list string) (k : nat) :
  getline (pre ++ rest) (length pre + k) = getline rest k.
Proof.
  unfold getline. rewrite lookup_app_r by lia.
  by replace (length pre + k - length pre)%nat with k by lia.
Qed.

Lemma setline_app (pre rest : list string) (k : nat) (x : string) :
  setline (pre ++ rest) (length pre + k) x =
  r ← setline rest k x; Done (pre ++ r).
Proof.
  unfold setline. rewrite length_app.
  destruct (decide (k < length rest)%nat).
  - rewrite decide_True by lia. simpl. by rewrite insert_app_r.
  - by rewrite decide_False by lia.
Qed.

Lemma put_lines_app (js : list nat) (lines pre rest : list string) :
  put_lines js lines (length pre) (pre ++ rest) =
  r ← put_lines js lines 0 rest; Done (pre ++ r).
Proof.
  revert rest. induction js as [|j js IH]; intros rest; [done|]. simpl.
  destruct (getline lines (j - 1)) as [x| |]; simpl; try done.
  rewrite setline_app.
  destruct (setline rest j x); simpl; [apply IH|done|done].
Qed.

Arguments put_lines : simpl never.

Lemma rewrite_at_app (t : build_lines) (pre rest : list string) :
  rewrite_at t (length pre) (pre ++ rest) =
  r ← rewrite_at t 0 rest; Done (pre ++ r).
Proof.
  unfold rewrite_at.
  rewrite <- (Nat.add_0_r (length pre)) at 1. rewrite getline_app.
  destruct (getline rest 0) as [line| |]; simpl; try done.
  assert (∀ (c : bool) lines d,
            (if c then put_lines (seq 1 3) lines (length pre) (pre ++ d)
             else Done (pre ++ d)) =
            r ← (if c then put_lines (seq 1 3) lines 0 d else Done d);
            Done (pre ++ r)) as Hstep.
  { intros [] lines d; [apply put_lines_app | done]. }
  rewrite Hstep.
  destruct (if contains "write_once" line then _ else _) as [d1| |];
    simpl; try done.
  rewrite Hstep.
  destruct (if contains "new SPCE" line then _ else _) as [d2| |];
    simpl; try done.
  rewrite Hstep.
  destruct (if contains "new NaIon" line then _ else _) as [d3| |];
    simpl; try done.
  rewrite Hstep.
  destruct (if contains "new ClIon" line then _ else _) as [d4| |];
    simpl; try done.
  destruct (contains "na[*]" line); [|done].
  rewrite <- (Nat.add_0_r (length pre)) at 1. rewrite setline_app.
  destruct (setline d4 0 _) as [d5| |]; simpl; try done.
  by rewrite setline_app.
Qed.

Lemma seq_split_at (n k : nat) :
  seq 0 (n + S k) = seq 0 n ++ n :: seq (S n) k.
Proof. by rewrite seq_app. Qed.

(** The loop up to and including the first line that is not plain. *)
Lemma rewrite_build_file_first (t : build_lines) (pre rest : list string)
    (m : string) :
  Forall (λ line, plain line = true) pre →
  rewrite_build_file t (pre ++ m :: rest) =
  r ← rewrite_at t 0 (m :: rest);
  rewrite_loop t (seq (S (length pre)) (length rest)) (pre ++ r).
Proof.
  intros Hpre. unfold rewrite_build_file.
  rewrite length_app. simpl length. rewrite seq_split_at, rewrite_loop_app.
  rewrite rewrite_loop_plain.
  - simpl. rewrite rewrite_at_app.
    by destruct (rewrite_at t 0 (m :: rest)).
  - intros i Hi%elem_of_seq. rewrite Forall_lookup in Hpre.
    destruct (lookup_lt_is_Some_2 pre i ltac:(lia)) as [line Hline].
    exists line. split; [by rewrite lookup_app_l by lia|]. by eapply Hpre.
Qed.

Lemma rewrite_loop_tail_plain (t : build_lines) (pre tl : list string)
    (x : string) :
  Forall (λ line, plain line = true) tl →
  rewrite_loop t (seq (S (length pre)) (length tl)) (pre ++ x :: tl) =
  Done (pre ++ x :: tl).
Proof.
  intros Htl. apply rewrite_loop_plain.
  intros i Hi%elem_of_seq. rewrite Forall_lookup in Htl.
  destruct (lookup_lt_is_Some_2 tl (i - S (length pre)) ltac:(lia))
    as [line Hline].
  exists line. split; [|by eapply Htl].
  rewrite lookup_app_r by lia.
  replace (i - length pre)%nat with (S (i - S (length pre))) by lia. done.
Qed.

Lemma put_block0 (a b c m x1 x2 x3 : string) (post : list string) :
  put_lines (seq 1 3) [a; b; c] 0 (m :: x1 :: x2 :: x3 :: post) =
  Done (m :: a :: b :: c :: post).
Proof.
  unfold put_lines, setline. simpl.
  repeat (rewrite decide_True by (simpl; lia); simpl). done.
Qed.

Lemma length_3_inv (l : list string) :
  length l = 3%nat → ∃ a b c, l = [a; b; c].
Proof. destruct l as [|a [|b [|c [|]]]]; try done. by exists a, b, c. Qed.

(** X10.  When [modify_build] rewrites the build file without raising, the
    file keeps its number of lines. *)
Theorem rewrite_build_file_length (t : build_lines)
    (data data' : list string) :
  rewrite_build_file t data = Done data' → length data' = length data.
Proof. apply rewrite_loop_length. Qed.

(** X11.  A build file in which no line has "write_once", "new SPCE",
    "new NaIon", "new ClIon" or "na[*]" in it is written back as it was. *)
Theorem rewrite_build_file_plain (t : build_lines) (data : list string) :
  Forall (λ line, plain line = true) data →
  rewrite_build_file t data = Done data.
Proof.
  intros Hdata. apply rewrite_loop_plain.
  intros i Hi%elem_of_seq. rewrite Forall_lookup in Hdata.
  destruct (lookup_lt_is_Some_2 data i ltac:(lia)) as [line Hline].
  exists line. split; [done|]. by eapply Hdata.
Qed.

(** X12.  A line with one of the four block markers in it, and no "na[*]",
    has the three lines after it replaced by the block of the last test it
    passes (box, water, Na, Cl in that order); what those three lines were is
    never looked at, markers or not.  The other lines, and the block itself,
    being plain, the rest of the file is kept. *)
Theorem rewrite_build_file_block (t : build_lines) (pre post : list string)
    (m x1 x2 x3 y1 y2 y3 : string) :
  length (grid_lines t) = 3%nat → length (wat_lines t) = 3%nat →
  length (na_lines t) = 3%nat → length (cl_lines t) = 3%nat →
  Forall (λ line, plain line = true) pre →
  Forall (λ line, plain line = true) post →
  contains "na[*]" m = false →
  block_of t m = Some [y1; y2; y3] →
  plain y1 = true → plain y2 = true → plain y3 = true →
  rewrite_build_file t (pre ++ m :: x1 :: x2 :: x3 :: post) =
  Done (pre ++ m :: y1 :: y2 :: y3 :: post).
Proof.
  intros (g1 & g2 & g3 & Hg)%length_3_inv (w1 & w2 & w3 & Hw)%length_3_inv
    (n1 & n2 & n3 & Hn)%length_3_inv (c1 & c2 & c3 & Hc)%length_3_inv
    Hpre Hpost Hna Hblock Hy1 Hy2 Hy3.
  rewrite rewrite_build_file_first by done.
  assert (rewrite_at t 0 (m :: x1 :: x2 :: x3 :: post)
          = Done (m :: y1 :: y2 :: y3 :: post)) as ->.
  { unfold rewrite_at, block_of in *. rewrite Hg, Hw, Hn, Hc in *.
    change (getline (m :: x1 :: x2 :: x3 :: post) 0) with (Done m).
    rewrite bind_Done, Hna.
    destruct (contains "write_once" m), (contains "new SPCE" m),
      (contains "new NaIon" m), (contains "new ClIon" m);
      simplify_eq; rewrite ?put_block0, ?bind_Done; done. }
  rewrite bind_Done.
  apply (rewrite_loop_tail_plain t pre (y1 :: y2 :: y3 :: post) m).
  by repeat apply Forall_cons_2.
Qed.

Lemma rewrite_build_file_block_witness :
  let t := BuildLines ["0 18.5 xlo xhi"; "0 18.5 ylo yhi"; "0 18.5 zlo zhi"]
             ["[3].move(0.00, 0.00, 6.17)"; "[2].move(0.00, 9.25, 0.01)";
              "[2].move(9.25, 0.01, 0.01)"]
             ["[1].move(0.00, 0.00, 18.5)"; "[1].move(0.00, 18.5, 0.01)";
              "[1].move(18.5, 0.01, 0.01)"]
             ["[1].move(0.00, 0.00, 18.5)"; "[1].move(0.00, 18.5, 0.01)";
              "[1].move(18.5, 0.01, 0.01)"]
             "na[*][*][*].move(3.08,3.08,3.08)"
             "cl[*][*][*].move(9.25,9.25,9.25)" in
  rewrite_build_file t
    (["import spce.lt"] ++
     ["wat = new SPCE [1].move(0, 0, 1)"; "old 1"; "new NaIon old 2"; "old 3";
      "}"]) =
  Done (["import spce.lt"] ++
        ["wat = new SPCE [1].move(0, 0, 1)"; "[3].move(0.00, 0.00, 6.17)";
         "[2].move(0.00, 9.25, 0.01)"; "[2].move(9.25, 0.01, 0.01)"; "}"]).
Proof.
  intros t.
  apply (rewrite_build_file_block t ["import spce.lt"] ["}"]
           "wat = new SPCE [1].move(0, 0, 1)" "old 1" "new NaIon old 2"
           "old 3"); try reflexivity; by repeat constructor.
Defined.

Lemma rewrite_build_file_length_witness :
  let t := BuildLines [] [] []
             ["[1].move(0.00, 0.00, 18.5)"; "[1].move(0.00, 18.5, 0.01)";
              "[1].move(18.5, 0.01, 0.01)"] "" "" in
  let data := ["new ClIon"; "a"; "b"; "c"] in
  let data' := ["new ClIon"; "[1].move(0.00, 0.00, 18.5)";
                "[1].move(0.00, 18.5, 0.01)"; "[1].move(18.5, 0.01, 0.01)"] in
  rewrite_build_file t data = Done data' ∧ length data' = length data.
Proof.
  intros t data data'.
  assert (rewrite_build_file t data = Done data') as H by reflexivity.
  split; [exact H|]. exact (rewrite_build_file_length t data data' H).
Defined.

Lemma rewrite_build_file_plain_witness :
  rewrite_build_file (BuildLines [] [] [] [] "" "")
    ["import spce.lt"; "}"] = Done ["import spce.lt"; "}"].
Proof. apply rewrite_build_file_plain. by repeat constructor. Defined.

(** X13.  In a build file whose earlier lines are plain, and with blocks of
    three lines, a line with a block marker in it that is one of the last
    three lines of the file, or a line with "na[*]" in it that is the last
    line, makes [modify_build] raise [IndexError] (before the file is opened
    for writing). *)
Theorem rewrite_build_file_short (t : build_lines) (pre rest : list string)
    (m : string) :
  length (grid_lines t) = 3%nat → length (wat_lines t) = 3%nat →
  length (na_lines t) = 3%nat → length (cl_lines t) = 3%nat →
  Forall (λ line, plain line = true) pre →
  (is_Some (block_of t m) ∧ (length rest < 3)%nat)
  ∨ (contains "na[*]" m = true ∧ rest = []) →
  rewrite_build_file t (pre ++ m :: rest) =
  Raise (IndexError "list assignment index out of range").
Proof.
  intros (g1 & g2 & g3 & Hg)%length_3_inv (w1 & w2 & w3 & Hw)%length_3_inv
    (n1 & n2 & n3 & Hn)%length_3_inv (c1 & c2 & c3 & Hc)%length_3_inv
    Hpre Hcase.
  rewrite rewrite_build_file_first by done.
  assert (rewrite_at t 0 (m :: rest)
          = Raise (IndexError "list assignment index out of range")) as ->;
    [|done].
  unfold rewrite_at, block_of in *. rewrite Hg, Hw, Hn, Hc in *.
  change (getline (m :: rest) 0) with (Done m). rewrite bind_Done.
  destruct Hcase as [[[b Hb] Hlen]|[Hna ->]].
  - destruct rest as [|r1 [|r2 [|r3 rest]]]; [| | |simpl in Hlen; lia];
      destruct (contains "write_once" m), (contains "new SPCE" m),
        (contains "new NaIon" m), (contains "new ClIon" m);
      simplify_eq; reflexivity.
  - rewrite Hna.
    destruct (contains "write_once" m), (contains "new SPCE" m),
      (contains "new NaIon" m), (contains "new ClIon" m); reflexivity.
Qed.

Lemma rewrite_build_file_short_witness :
  let t := BuildLines ["g1"; "g2"; "g3"] ["w1"; "w2"; "w3"]
             ["n1"; "n2"; "n3"] ["c1"; "c2"; "c3"] "na" "cl" in
  rewrite_build_file t (["import spce.lt"] ++ ["new SPCE"; "a"; "b"]) =
  Raise (IndexError "list assignment index out of range").
Proof.
  intros t.
  apply (rewrite_build_file_short t ["import spce.lt"] ["a"; "b"] "new SPCE");
    try reflexivity; [by repeat constructor|].
  left. split; [by eexists | simpl; lia].
Defined.

(** X14.  A line with "na[*]" in it and no block marker is replaced by the
    line that moves the Na ions, and the line after it by the line that moves
    the Cl ions, whatever that line was; the other lines being plain, the
    rest of the file is kept. *)
Theorem rewrite_build_file_ions (t : build_lines) (pre post : list string)
    (m x : string) :
  Forall (λ line, plain line = true) pre →
  Forall (λ line, plain line = true) post →
  block_of t m = None → contains "na[*]" m = true →
  plain (cl_move_line t) = true →
  rewrite_build_file t (pre ++ m :: x :: post) =
  Done (pre ++ na_move_line t :: cl_move_line t :: post).
Proof.
  intros Hpre Hpost Hblock Hna Hcl.
  rewrite rewrite_build_file_first by done.
  assert (rewrite_at t 0 (m :: x :: post)
          = Done (na_move_line t :: cl_move_line t :: post)) as ->.
  { unfold rewrite_at, block_of in *.
    change (getline (m :: x :: post) 0) with (Done m).
    rewrite bind_Done, Hna.
    destruct (contains "write_once" m), (contains "new SPCE" m),
      (contains "new NaIon" m), (contains "new ClIon" m);
      simplify_eq. rewrite !bind_Done. unfold setline. simpl.
    repeat (rewrite decide_True by (simpl; lia); simpl). done. }
  rewrite bind_Done.
  apply (rewrite_loop_tail_plain t pre (cl_move_line t :: post)).
  by apply Forall_cons_2.
Qed.

Lemma rewrite_build_file_ions_witness :
  let t := BuildLines [] [] [] [] "na[*][*][*].move(3.08,3.08,3.08)"
             "cl[*][*][*].move(9.25,9.25,9.25)" in
  rewrite_build_file t (["salt {"] ++ ["na[*][*][*].move(0,0,0)"; "old"; "}"])
  = Done (["salt {"] ++ ["na[*][*][*].move(3.08,3.08,3.08)";
                          "cl[*][*][*].move(9.25,9.25,9.25)"; "}"]).
Proof.
  intros t.
  apply (rewrite_build_file_ions t ["salt {"] ["}"]
           "na[*][*][*].move(0,0,0)" "old");
    try reflexivity; by repeat constructor.
Defined.

(** ** The lines [modify_build] makes *)

Lemma has_char_app (c : Ascii.ascii) (s1 s2 : string) :
  has_char c (s1 +:+ s2) = has_char c s1 || has_char c s2.
Proof.
  induction s1 as [|a s1 IH]; [done|]. simpl. by rewrite IH, orb_assoc.
Qed.

Lemma prefix_has_char (c : Ascii.ascii) (needle hay : string) :
  String.prefix needle hay = true → has_char c needle = true →
  has_char c hay = true.
Proof.
  revert needle. induction hay as [|b hay IH]; intros [|a needle]; try done.
  simpl. destruct (Ascii.ascii_dec a b) as [->|]; [|done].
  intros Hp [H|H]%orb_true_iff; apply orb_true_iff; [by left|].
  right. by apply (IH needle).
Qed.

Lemma contains_has_char (c : Ascii.ascii) (needle hay : string) :
  has_char c needle = true → has_char c hay = false →
  contains needle hay = false.
Proof.
  intros Hn. induction hay as [|b hay IH]; intros Hh.
  - simpl. rewrite orb_false_r. destruct needle; [done|done].
  - simpl. apply orb_false_iff. split.
    + destruct (String.prefix needle (String b hay)) eqn:E; [|done].
      apply (prefix_has_char c) in E; [|done]. congruence.
    + apply IH. simpl in Hh. by apply orb_false_iff in Hh as [_ ?].
Qed.

Lemma over_has_char (alphabet s : string) (c : Ascii.ascii) :
  over alphabet s = true → has_char c alphabet = false →
  has_char c s = false.
Proof.
  intros Hs Hc. induction s as [|a s IH]; [done|]. simpl in *.
  apply andb_true_iff in Hs as [Ha Hs]. rewrite (IH Hs), orb_false_r.
  destruct (Ascii.eqb_spec a c) as [->|]; [congruence|done].
Qed.

Lemma py_str_int_over (z : Z) : over "0123456789-" (py_str_int z) = true.
Proof.
  unfold py_str_int.
  assert (∀ d, over "0123456789-" (NilEmpty.string_of_uint d) = true) as Hu
    by (induction d; simpl; done).
  assert (∀ d, over "0123456789-" (NilZero.string_of_uint d) = true) as Hz
    by (intros []; try done; apply Hu).
  destruct (Z.to_int z); simpl; [apply Hz|]. apply Hz.
Qed.

(** A line without a "w", and without a "*" or without an "a", passes none
    of the five tests. *)
Lemma plain_of_chars (line : string) :
  has_char "w"%char line = false →
  has_char "*"%char line = false ∨ has_char "a"%char line = false →
  plain line = true.
Proof.
  intros Hw Hs. unfold plain.
  rewrite !(contains_has_char "w"%char _ line) by done. simpl.
  destruct Hs as [Hs|Hs];
    [rewrite (contains_has_char "*"%char _ line) by done
    |rewrite (contains_has_char "a"%char _ line) by done]; done.
Qed.

Lemma numeric_chars (s : string) :
  numeric s = true →
  has_char "w"%char s = false ∧ has_char "*"%char s = false
  ∧ has_char "a"%char s = false.
Proof.
  intros H. repeat split; by apply (over_has_char "0123456789.-+e").
Qed.

Lemma py_str_int_chars (z : Z) :
  has_char "w"%char (py_str_int z) = false
  ∧ has_char "*"%char (py_str_int z) = false.
Proof.
  split; apply (over_has_char "0123456789-"); try done; apply py_str_int_over.
Qed.

(** X15.  The lines [modify_build] makes from three-sided lattices and from
    finite numbers: three lines in each block, the Na block the same as the
    Cl block, and no line that passes any of the five tests of the rewriting
    loop, except the line that moves the Na ions, which has "na[*]" in it. *)
Theorem make_lines_plain (grid na_move cl_move : string)
    (wa wb wc sa sb sc : Z) (u0 u1 u2 v0 v1 v2 : string) :
  Forall (λ s, numeric s = true)
    [grid; na_move; cl_move; u0; u1; u2; v0; v1; v2] →
  ∃ t,
    make_lines grid [wa; wb; wc] [u0; u1; u2] [sa; sb; sc] [v0; v1; v2]
      na_move cl_move = Done t
    ∧ length (grid_lines t) = 3%nat ∧ length (wat_lines t) = 3%nat
    ∧ length (na_lines t) = 3%nat ∧ length (cl_lines t) = 3%nat
    ∧ na_lines t = cl_lines t
    ∧ Forall (λ line, plain line = true)
        (grid_lines t ++ wat_lines t ++ na_lines t ++ cl_lines t
         ++ [cl_move_line t])
    ∧ contains "na[*]" (na_move_line t) = true.
Proof.
  intros H. rewrite Forall_forall in H.
  assert (∀ s c, s ∈ [grid; na_move; cl_move; u0; u1; u2; v0; v1; v2] →
                 has_char c "0123456789.-+e" = false →
                 has_char c s = false) as Hc
    by (intros s c Hs; apply over_has_char, H, Hs).
  pose proof (λ z, proj1 (py_str_int_chars z)) as Hiw.
  pose proof (λ z, proj2 (py_str_int_chars z)) as His.
  eexists. split; [reflexivity|]. simpl.
  repeat (split; [done|]). split; [|done].
  repeat (apply Forall_cons_2; [|]); try apply Forall_nil_2;
    apply plain_of_chars;
    rewrite ?has_char_app, ?Hiw, ?His;
    repeat match goal with
           | |- context [has_char ?c ?s] =>
               is_var s; rewrite (Hc s c) by (by repeat constructor)
           end; auto.
Qed.

Lemma make_lines_plain_witness :
  Forall (λ s, numeric s = true)
    ["18.6"; "0.0"; "9.3"; "6.2"; "9.3"; "9.3"; "18.6"; "18.6"; "18.6"]
  ∧ ∃ t,
    make_lines "18.6" [3; 2; 2] ["6.2"; "9.3"; "9.3"] [1; 1; 1]
      ["18.6"; "18.6"; "18.6"] "0.0" "9.3" = Done t
    ∧ length (grid_lines t) = 3%nat ∧ length (wat_lines t) = 3%nat
    ∧ length (na_lines t) = 3%nat ∧ length (cl_lines t) = 3%nat
    ∧ na_lines t = cl_lines t
    ∧ Forall (λ line, plain line = true)
        (grid_lines t ++ wat_lines t ++ na_lines t ++ cl_lines t
         ++ [cl_move_line t])
    ∧ contains "na[*]" (na_move_line t) = true.
Proof.
  assert (Forall (λ s, numeric s = true)
    ["18.6"; "0.0"; "9.3"; "6.2"; "9.3"; "9.3"; "18.6"; "18.6"; "18.6"]) as H
    by (repeat constructor).
  split; [exact H|].
  exact (make_lines_plain "18.6" "0.0" "9.3" 3 2 2 1 1 1
           "6.2" "9.3" "9.3" "18.6" "18.6" "18.6" H).
Defined.

(** ** [clean_up] *)

Lemma clean_up_one_source (original : list string)
    (identifier storage_path mode filename : string) (call : fs_call) :
  call ∈ clean_up_one original identifier storage_path mode filename →
  (filename ∉ original) ∧ fs_source call = "./" +:+ filename.
Proof.
  unfold clean_up_one. case_bool_decide as Hf; [|by intros ?%elem_of_nil].
  repeat case_match; try (by intros ?%elem_of_nil);
    intros ->%list_elem_of_singleton; done.
Qed.

(** X16.  Every call [clean_up] makes is on "./" followed by a name of
    [new] that is not in [original], whatever the mode: a file named in
    [original] is never moved, removed or copied. *)
Theorem clean_up_spares_original (original new : list string)
    (identifier storage_path mode : string) (call : fs_call) :
  call ∈ clean_up original new identifier storage_path mode →
  ∃ filename, filename ∈ new ∧ (filename ∉ original)
    ∧ fs_source call = "./" +:+ filename.
Proof.
  unfold clean_up. intros (filename & Hc & Hn)%list_elem_of_bind.
  exists filename. by apply clean_up_one_source in Hc as [? ?].
Qed.

Lemma clean_up_spares_original_witness :
  OsRemove "./log.lammps"
    ∈ clean_up ["system.lt"] ["system.lt"; "log.lammps"] "" "" "delete"
  ∧ ∃ filename, filename ∈ ["system.lt"; "log.lammps"]
      ∧ (filename ∉ ["system.lt"])
      ∧ fs_source (OsRemove "./log.lammps") = "./" +:+ filename.
Proof.
  assert (OsRemove "./log.lammps"
    ∈ clean_up ["system.lt"] ["system.lt"; "log.lammps"] "" "" "delete") as H
    by (vm_compute; apply list_elem_of_here).
  split; [exact H|]. exact (clean_up_spares_original _ _ _ _ _ _ H).
Defined.

(** X17.  With a mode other than "move", "delete" and "copy", a different
    capitalisation included, [clean_up] makes no call at all and raises
    nothing. *)
Theorem clean_up_unknown_mode (original new : list string)
    (identifier storage_path mode : string) :
  mode ≠ "move" → mode ≠ "delete" → mode ≠ "copy" →
  clean_up original new identifier storage_path mode = [].
Proof.
  intros Hm Hd Hc. unfold clean_up.
  induction new as [|filename new IH]; [done|].
  cbn [mbind list_bind]. rewrite IH, app_nil_r. unfold clean_up_one.
  destruct (String.eqb_spec mode "move"); [done|].
  destruct (String.eqb_spec mode "delete"); [done|].
  destruct (String.eqb_spec mode "copy"); [done|].
  by case_bool_decide.
Qed.

Lemma clean_up_unknown_mode_witness :
  clean_up ["system.lt"] ["system.lt"; "log.lammps"] "run1_" "store" "Delete"
  = [].
Proof. by apply clean_up_unknown_mode. Defined.

(** ** [time_to_steps] *)

Lemma lstrip_blank_app (w s : string) :
  blank w = true → lstrip (w +:+ s) = lstrip s.
Proof.
  induction w as [|c w IH]; [done|]. simpl.
  intros [-> Hw]%andb_true_iff. by apply IH.
Qed.

Lemma rstrip_cons (c : ascii) (s : string) :
  is_space c = false → rstrip (String c s) = String c (rstrip s).
Proof. intros Hc. simpl. rewrite Hc. by destruct (rstrip s). Qed.

Lemma rstrip_app_cons (a : string) (c : ascii) (s : string) :
  is_space c = false →
  rstrip (a +:+ String c s) = a +:+ String c (rstrip s).
Proof.
  intros Hc. induction a as [|b a IH]; [by apply rstrip_cons|].
  change (String b a +:+ String c s) with (String b (a +:+ String c s)).
  change (String b a +:+ String c (rstrip s)) with (String b (a +:+ String c (rstrip s))).
  cbn [rstrip]. rewrite IH. by destruct a.
Qed.

Lemma rstrip_solid (s : string) : solid s = true → rstrip s = s.
Proof.
  induction s as [|c s IH]; [done|]. simpl.
  intros [Hc Hs]%andb_true_iff. rewrite (IH Hs).
  destruct (is_space c); [done|]. by destruct s.
Qed.

Lemma lstrip_solid (s : string) : solid s = true → lstrip s = s.
Proof. destruct s as [|c s]; [done|]. simpl. by destruct (is_space c). Qed.

Lemma strip_solid (s : string) : solid s = true → strip s = s.
Proof. intros H. unfold strip. by rewrite lstrip_solid, rstrip_solid. Qed.

Lemma digit_not_space (c : ascii) :
  has_char c "0123456789-" = true → is_space c = false.
Proof. by destruct c as [[] [] [] [] [] [] [] []]. Qed.

Lemma over_solid (s : string) : over "0123456789-" s = true → solid s = true.
Proof.
  induction s as [|c s IH]; [done|]. cbn [over solid].
  intros [Hc Hs]%andb_true_iff.
  by rewrite (IH Hs), (digit_not_space c Hc).
Qed.

Lemma prefix_app (x b : string) : String.prefix x (x +:+ b) = true.
Proof.
  induction x as [|c x IH]; [by destruct b|]. simpl.
  by destruct (Ascii.ascii_dec c c).
Qed.

Lemma contains_prefix (x s : string) :
  String.prefix x s = true → contains x s = true.
Proof. intros H. destruct s; cbn [contains]; by rewrite H. Qed.

Lemma contains_cons (x : string) (c : ascii) (s : string) :
  contains x s = true → contains x (String c s) = true.
Proof. intros H. cbn [contains]. rewrite H. apply orb_true_r. Qed.

Lemma contains_app_r (x a b : string) : contains x (a +:+ x +:+ b) = true.
Proof.
  induction a as [|c a IH].
  - apply contains_prefix, (prefix_app x b).
  - by apply (contains_cons x c (a +:+ x +:+ b)).
Qed.

Lemma prefix_app_l (x a t : string) :
  String.prefix x a = true → String.prefix x (a +:+ t) = true.
Proof.
  revert a. induction x as [|c x IH]; intros [|b a]; simpl; try done.
  - by destruct t.
  - destruct (Ascii.ascii_dec c b); [apply IH|done].
Qed.

Lemma contains_app_l (x a t : string) :
  contains x a = true → contains x (a +:+ t) = true.
Proof.
  induction a as [|c a IH].
  - cbn [contains]. rewrite orb_false_r. intros H.
    by apply contains_prefix, (prefix_app_l x EmptyString t).
  - cbn [contains]. intros [H|H]%orb_true_iff.
    + by apply contains_prefix, (prefix_app_l x (String c a) t).
    + by apply (contains_cons x c (a +:+ t)), IH.
Qed.

Lemma rstrip_prefix (s : string) : ∃ t, s = rstrip s +:+ t.
Proof.
  induction s as [|c s [t IH]]; [by exists EmptyString|]. simpl.
  destruct (rstrip s) as [|b r] eqn:E.
  - destruct (is_space c); [by eexists|]. exists s. done.
  - exists t. simpl. by rewrite IH at 1.
Qed.

Lemma contains_rstrip (x s : string) :
  contains x s = false → contains x (rstrip s) = false.
Proof.
  intros H. destruct (contains x (rstrip s)) eqn:E; [|done].
  destruct (rstrip_prefix s) as [t Ht].
  apply (contains_app_l _ _ t) in E. rewrite <- Ht in E. congruence.
Qed.

Lemma before_app (u a r : string) (c : ascii) :
  has_char c a = false →
  before (String c u) (a +:+ String c u +:+ r) = a.
Proof.
  induction a as [|b a IH]; intros Ha.
  - change (before (String c u) (String c (u +:+ r)) = EmptyString).
    cbn [before String.prefix]. destruct (Ascii.ascii_dec c c); [|done].
    by rewrite prefix_app.
  - simpl in Ha. apply orb_false_iff in Ha as [Hb Ha].
    change (before (String c u) (String b (a +:+ String c u +:+ r))
            = String b a).
    cbn [before String.prefix].
    destruct (Ascii.ascii_dec c b) as [->|]; [by rewrite Ascii.eqb_refl in Hb|].
    by rewrite (IH Ha).
Qed.

Lemma py_split_blank (w : string) : blank w = true → py_split w = [].
Proof.
  induction w as [|c w IH]; [done|]. simpl.
  intros [-> Hw]%andb_true_iff. by apply IH.
Qed.

Lemma py_split_word (c : ascii) (d w : string) :
  solid (String c d) = true → blank w = true →
  py_split (String c d +:+ w) = [String c d].
Proof.
  revert c. induction d as [|c' d IH]; intros c Hd Hw.
  - simpl in Hd. rewrite andb_true_r in Hd. apply negb_true_iff in Hd.
    change (py_split (String c w) = [String c EmptyString]).
    pose proof (py_split_blank w Hw) as Hw'.
    cbn [py_split]. rewrite Hd, Hw'.
    destruct w as [|b w]; [done|]. simpl in Hw.
    by apply andb_true_iff in Hw as [-> _].
  - cbn [solid] in Hd. apply andb_true_iff in Hd as [Hc Hd].
    apply negb_true_iff in Hc. pose proof (IH c' Hd Hw) as IH'.
    cbn [solid] in Hd. apply andb_true_iff in Hd as [Hc' _].
    apply negb_true_iff in Hc'.
    change (String c' d +:+ w) with (String c' (d +:+ w)) in IH'.
    change (py_split (String c (String c' (d +:+ w)))
            = [String c (String c' d)]).
    simpl in IH'. simpl. rewrite Hc, Hc' in *. by rewrite IH'.
Qed.

Lemma decimal_value_pos (d : Decimal.uint) (acc : positive) :
  decimal_value (Z.pos acc) d = Z.pos (Pos.of_uint_acc d acc).
Proof.
  revert acc. induction d; intros acc; simpl; [done|..];
    rewrite <- IHd; f_equal; lia.
Qed.

Lemma decimal_value_of_uint (d : Decimal.uint) :
  decimal_value 0 d = Z.of_N (Pos.of_uint d).
Proof.
  induction d; simpl; try done; apply (decimal_value_pos d).
Qed.

Lemma py_int_digits_uint (d : Decimal.uint) (acc : Z) :
  py_int_digits acc true (NilEmpty.string_of_uint d)
  = Some (decimal_value acc d).
Proof.
  revert acc. induction d; intros acc; simpl; [done|..];
    rewrite IHd; do 2 f_equal;
    match goal with
    | |- context [Z.of_nat (nat_of_ascii ?c)] =>
        let v := eval vm_compute in (Z.of_nat (nat_of_ascii c)) in
        change (Z.of_nat (nat_of_ascii c)) with v
    end; lia.
Qed.

Lemma py_int_digits_pos (p : positive) :
  py_int_digits 0 false (NilZero.string_of_uint (Pos.to_uint p))
  = Some (Z.pos p).
Proof.
  pose proof (Unsigned.to_uint_nonnil p) as Hn.
  pose proof (DecimalPos.Unsigned.of_to p) as Hp.
  rewrite <- (f_equal Z.of_N Hp : Z.of_N (Pos.of_uint _) = Z.pos p), <- decimal_value_of_uint.
  destruct (Pos.to_uint p); try done; simpl; apply py_int_digits_uint.
Qed.

Lemma py_int_str (z : Z) : py_int (py_str_int z) = inr z.
Proof.
  unfold py_int.
  rewrite (strip_solid _ (over_solid _ (py_str_int_over z))).
  unfold py_str_int. destruct z as [|p|p]; [done|..]; cbn [Z.to_int NilZero.string_of_int].
  - pose proof (py_int_digits_pos p) as H.
    destruct (NilZero.string_of_uint (Pos.to_uint p)) as [|c s] eqn:E; [done|].
    assert (c ≠ "-"%char ∧ c ≠ "+"%char) as [Hm Hp].
    { split; intros ->; simpl in H; done. }
    destruct c as [[] [] [] [] [] [] [] []]; try done; by rewrite H.
  - by rewrite (py_int_digits_pos p).
Qed.

Lemma py_str_int_cons (z : Z) :
  ∃ c d, py_str_int z = String c d ∧ solid (String c d) = true
    ∧ has_char "p" (String c d) = false ∧ has_char "n" (String c d) = false.
Proof.
  pose proof (py_str_int_over z) as Ho.
  pose proof (py_int_str z) as Hi.
  destruct (py_str_int z) as [|c d] eqn:E; [done|].
  exists c, d. split; [done|]. split; [by apply over_solid|].
  split; by apply (over_has_char "0123456789-").
Qed.

Lemma blank_has_char (c : ascii) (w : string) :
  blank w = true → is_space c = false → has_char c w = false.
Proof.
  intros Hw Hc. induction w as [|b w IH]; [done|]. simpl in *.
  apply andb_true_iff in Hw as [Hb Hw]. rewrite (IH Hw), orb_false_r.
  destruct (Ascii.eqb_spec b c) as [->|]; [congruence|done].
Qed.


Lemma append_assoc (a b c : string) : (a +:+ b) +:+ c = a +:+ b +:+ c.
Proof.
  induction a as [|x a IH]; [done|].
  change (String x ((a +:+ b) +:+ c) = String x (a +:+ b +:+ c)).
  by rewrite IH.
Qed.

Lemma contains_app_skip (c : ascii) (x a b : string) :
  has_char c a = false →
  contains (String c x) (a +:+ b) = contains (String c x) b.
Proof.
  induction a as [|y a IH]; [done|]. simpl. intros [Hy Ha]%orb_false_iff.
  change (String y a +:+ b) with (String y (a +:+ b)).
  cbn [contains String.prefix]. rewrite (IH Ha).
  destruct (Ascii.ascii_dec c y) as [->|]; [by rewrite Ascii.eqb_refl in Hy|].
  done.
Qed.

(** The text of an integer, white space and the unit: what is read before
    the unit is the integer. *)
Lemma steps_in_format (u : ascii) (v : string) (factor : Z)
    (w rest : string) (n step_size : Z) :
  blank w = true → is_space u = false →
  has_char u "0123456789-" = false → step_size ≠ 0 →
  steps_in (String u v) factor
    (py_str_int n +:+ w +:+ String u v +:+ rest) step_size
  = inr (VFloat (b64_div (b64_of_Z (n * factor)) (b64_of_Z step_size))).
Proof.
  intros Hw Hu Hd Hs. unfold steps_in.
  rewrite <- (append_assoc (py_str_int n) w), before_app.
  - pose proof (py_int_str n) as Hi.
    destruct (py_str_int_cons n) as (c & d & E & Hsolid & _).
    rewrite E in *. rewrite (py_split_word c d w Hsolid Hw).
    cbn [lookup list_lookup]. rewrite Hi. unfold py_truediv.
    by destruct (Z.eqb_spec step_size 0).
  - rewrite has_char_app, (blank_has_char u w Hw Hu), orb_false_r.
    by apply (over_has_char "0123456789-"), Hd; apply py_str_int_over.
Qed.

Lemma strip_format (u1 u2 : ascii) (w1 w2 rest : string) (n : Z) :
  blank w1 = true → is_space u1 = false → is_space u2 = false →
  strip (w1 +:+ py_str_int n +:+ w2 +:+ String u1 (String u2 EmptyString)
         +:+ rest)
  = py_str_int n +:+ w2 +:+ String u1 (String u2 EmptyString)
    +:+ rstrip rest.
Proof.
  intros Hw1 Hu1 Hu2. unfold strip. rewrite (lstrip_blank_app w1 _ Hw1).
  destruct (py_str_int_cons n) as (c & d & E & Hsolid & _). rewrite E.
  cbn [solid] in Hsolid. apply andb_true_iff in Hsolid as [Hc _].
  apply negb_true_iff in Hc.
  change (String c d +:+ ?x) with (String c (d +:+ x)) at 1.
  cbn [lstrip]. rewrite Hc.
  change (String c (d +:+ ?x)) with (String c d +:+ x).
  rewrite <- !(append_assoc (String c d) w2).
  change (String u1 (String u2 EmptyString) +:+ ?x)
    with (String u1 (String u2 x)).
  by rewrite (rstrip_app_cons _ u1 _ Hu1), (rstrip_cons u2 _ Hu2).
Qed.

(** X18.  A time written as the text of an integer followed by "ps", with
    white space allowed before the integer and between the integer and the
    unit and with anything after the unit, gives the float
    [n*1000/step_size]. *)
Theorem time_to_steps_picoseconds (w1 w2 rest : string) (n step_size : Z) :
  blank w1 = true → blank w2 = true →
  Z.abs (n * 1000) ≤ 2 ^ 53 → Z.abs step_size ≤ 2 ^ 53 → step_size ≠ 0 →
  time_to_steps (w1 +:+ py_str_int n +:+ w2 +:+ "ps" +:+ rest) step_size
  = inr (VFloat (b64_div (b64_of_Z (n * 1000)) (b64_of_Z step_size))).
Proof.
  intros Hw1 Hw2 _ _ Hs. unfold time_to_steps.
  rewrite (strip_format "p" "s" w1 w2 rest n Hw1) by done.
  rewrite <- (append_assoc (py_str_int n) w2), contains_app_r.
  rewrite (append_assoc (py_str_int n) w2).
  by apply steps_in_format.
Qed.

Lemma time_to_steps_picoseconds_witness :
  time_to_steps " 250 ps" 2
  = inr (VFloat (b64_div (b64_of_Z 250000) (b64_of_Z 2))).
Proof.
  by apply (time_to_steps_picoseconds " " " " "" 250 2).
Defined.

(** X19.  The same for "ns" and [n*1000000/step_size], provided no "ps"
    comes after the unit: the test for "ps" is made first, on the whole
    text. *)
Theorem time_to_steps_nanoseconds (w1 w2 rest : string) (n step_size : Z) :
  blank w1 = true → blank w2 = true → contains "ps" rest = false →
  Z.abs (n * 1000000) ≤ 2 ^ 53 → Z.abs step_size ≤ 2 ^ 53 → step_size ≠ 0 →
  time_to_steps (w1 +:+ py_str_int n +:+ w2 +:+ "ns" +:+ rest) step_size
  = inr (VFloat (b64_div (b64_of_Z (n * 1000000)) (b64_of_Z step_size))).
Proof.
  intros Hw1 Hw2 Hr _ _ Hs. unfold time_to_steps.
  rewrite (strip_format "n" "s" w1 w2 rest n Hw1) by done.
  rewrite <- (append_assoc (py_str_int n) w2).
  rewrite (contains_app_skip "p" "s" (py_str_int n +:+ w2)).
  - rewrite (contains_app_skip "p" "s" "ns") by done.
    rewrite (contains_rstrip _ _ Hr), contains_app_r.
    rewrite (append_assoc (py_str_int n) w2).
    by apply steps_in_format.
  - rewrite has_char_app, (blank_has_char "p" w2 Hw2), orb_false_r by done.
    by apply (over_has_char "0123456789-"); [apply py_str_int_over|].
Qed.

Lemma time_to_steps_nanoseconds_witness :
  time_to_steps "-3ns" 2
  = inr (VFloat (b64_div (b64_of_Z (-3000000)) (b64_of_Z 2))).
Proof.
  by apply (time_to_steps_nanoseconds "" "" "" (-3) 2).
Defined.

(** X20.  Whatever [time_to_steps] returns is a float, the integer 0 of the
    time "0" apart. *)
Theorem time_to_steps_float (time : string) (step_size : Z) (v : value) :
  time_to_steps time step_size = inr v →
  (∃ f, v = VFloat f) ∨ (strip time = "0" ∧ v = VInt 0).
Proof.
  unfold time_to_steps, steps_in. intros H.
  repeat case_match; simplify_eq; eauto.
  match goal with
  | E : String.eqb _ _ = true |- _ => apply String.eqb_eq in E; rewrite E in *
  end.
  match goal with
  | E : py_int _ = inr _ |- _ => vm_compute in E; injection E as <-
  end.
  by right.
Qed.

Lemma time_to_steps_float_witness :
  time_to_steps "5ps" 2 = inr (VFloat (b64_of_Z 2500))
  ∧ ((∃ f, VFloat (b64_of_Z 2500) = VFloat f)
     ∨ (strip "5ps" = "0" ∧ VFloat (b64_of_Z 2500) = VInt 0)).
Proof.
  assert (time_to_steps "5ps" 2 = inr (VFloat (b64_of_Z 2500))) as H
    by (by vm_compute).
  split; [exact H|]. exact (time_to_steps_float _ _ _ H).
Defined.

(** X21.  A time whose unit "ps" comes first, with no number before it,
    raises [IndexError], not the exception of the wrong format. *)
Theorem time_to_steps_missing_number (w rest : string) (step_size : Z) :
  blank w = true →
  time_to_steps (w +:+ "ps" +:+ rest) step_size
  = inl (Exn (IndexError "list index out of range")).
Proof.
  intros Hw. unfold time_to_steps, strip.
  rewrite (lstrip_blank_app w _ Hw).
  change ("ps" +:+ rest) with (String "p" (String "s" rest)).
  cbn [lstrip]. change (is_space "p") with false. cbv iota.
  rewrite !rstrip_cons by done.
  rewrite (contains_prefix "ps") by (by destruct (rstrip rest)).
  unfold steps_in.
  change (String "p" (String "s" (rstrip rest)))
    with ("" +:+ "ps" +:+ rstrip rest).
  by rewrite (before_app "s" "" (rstrip rest) "p").
Qed.

Lemma time_to_steps_missing_number_witness :
  time_to_steps " ps" 2 = inl (Exn (IndexError "list index out of range")).
Proof. by apply (time_to_steps_missing_number " " "" 2). Defined.
